(** * Wealth simulator: the Monte-Carlo engine of [App.jsx]

    A shallow embedding of [generateGaussian] and of the body of
    [runSimulation] (src/wealth-simulator/src/App.jsx), with the properties
    the specification states about them.

    Numbers.  JavaScript numbers are modelled as exact rationals [Q]: every
    arithmetic step of the source is kept, its IEEE rounding is not.  Values
    are compared with [==] ([Qeq]).  Ages are integers [Z].

    Randomness.  [Math.random] is replaced by an explicit source: the
    sequence of standard normal deviates that the successive Box-Muller
    calls produce, indexed by the number of calls made so far.  The call
    counter is threaded through the loops exactly as the calls occur in the
    source (one call per simulated year, year 0 included). *)

From Stdlib Require Import ZArith QArith Qminmax Qround Qabs Lqa Lia.
From Stdlib Require Import List Bool Sorting.Sorted Sorting.Permutation.
From Stdlib Require Import Setoid Morphisms.
From Stdlib Require String Ascii.
Import ListNotations.
Open Scope Q_scope.

(** ** Parameters (the [params] state object) *)

Record SimulationParameters := mkParams {
  currentAge : Z;
  retirementAge : Z;
  lifeExpectancy : Z;
  taxableBalance : Q;
  taxableContribution : Q;
  preTaxBalance : Q;
  preTaxContribution : Q;
  rothBalance : Q;
  rothContribution : Q;
  minSpending : Q;
  discretionarySpending : Q;
  spendingCutFlexibility : Q;
  fixedIncomeAnnual : Q;
  fixedIncomeStartAge : Z;
  expectedReturn : Q;
  volatility : Q;
  incomeTaxRate : Q;
  capitalGainsInclusion : Q
}.

(** The initial value of the [params] state (lines 132-165). *)
Definition defaultParams : SimulationParameters :=
  mkParams 35 65 90 50000 5000 40000 10000 10000 6000
           40000 20000 50 0 65 4.5 15 30 50.

(** ** Comparisons of the source as booleans *)

Definition Qltb (x y : Q) : bool := negb (Qle_bool y x).
Definition Qleb (x y : Q) : bool := Qle_bool x y.
Definition Qgeb (x y : Q) : bool := Qle_bool y x.
Definition Qgtb (x y : Q) : bool := negb (Qle_bool x y).

(** ** RandomVariateSource *)

(** The deviate [z = sqrt(-2 ln u) cos(2 pi v)] of each Box-Muller call,
    by call number. *)
Definition RandomSource := nat -> Q.

(** [generateGaussian] (lines 10-16): [mean + z * stdDev], [z] being the
    deviate drawn by this call. *)
Definition generateGaussian (z mean stdDev : Q) : Q := mean + z * stdDev.

(** ** AccountLedger: the three running balances of one path *)

Record Ledger := mkLedger {
  bTaxable : Q;
  bPreTax : Q;
  bRoth : Q
}.

Definition ledgerTotal (b : Ledger) : Q := bTaxable b + bPreTax b + bRoth b.

(** Step 2 (lines 216-220): the same return for the three accounts. *)
Definition applyGrowth (realReturn : Q) (b : Ledger) : Ledger :=
  mkLedger (bTaxable b * (1 + realReturn))
           (bPreTax b * (1 + realReturn))
           (bRoth b * (1 + realReturn)).

(** Accumulation (lines 226-228). *)
Definition applyContributions (p : SimulationParameters) (b : Ledger) : Ledger :=
  mkLedger (bTaxable b + taxableContribution p)
           (bPreTax b + preTaxContribution p)
           (bRoth b + rothContribution p).

(** Surplus branch (line 267). *)
Definition depositSurplus (actualPortfolioWithdrawal : Q) (b : Ledger) : Ledger :=
  mkLedger (bTaxable b + Qabs actualPortfolioWithdrawal) (bPreTax b) (bRoth b).

(** [effectiveTaxFactor <= 0 ? 0.01 : effectiveTaxFactor] (lines 277, 294). *)
Definition clampDivisor (effectiveTaxFactor : Q) : Q :=
  if Qleb effectiveTaxFactor 0 then 0.01 else effectiveTaxFactor.

Definition taxableDivisor (p : SimulationParameters) : Q :=
  let inclusionRate := capitalGainsInclusion p / 100 in
  let taxRate := incomeTaxRate p / 100 in
  clampDivisor (1 - inclusionRate * taxRate).

Definition preTaxDivisor (p : SimulationParameters) : Q :=
  let taxRate := incomeTaxRate p / 100 in
  clampDivisor (1 - taxRate).

(** One gross-up stage (blocks A and B, lines 273-305): the new balance of
    the account and the net need that remains. *)
Definition grossUpStage (divisor balance remainingNetNeed : Q) : Q * Q :=
  if Qgtb remainingNetNeed 0 && Qgtb balance 0 then
    let grossNeeded := remainingNetNeed / divisor in
    if Qgeb balance grossNeeded then (balance - grossNeeded, 0)
    else
      let netFromAccount := balance * divisor in
      (0, remainingNetNeed - netFromAccount)
  else (balance, remainingNetNeed).

Definition withdrawTaxable (p : SimulationParameters) (balance need : Q) : Q * Q :=
  grossUpStage (taxableDivisor p) balance need.

Definition withdrawPreTax (p : SimulationParameters) (balance need : Q) : Q * Q :=
  grossUpStage (preTaxDivisor p) balance need.

(** Block C (lines 308-316): no tax. *)
Definition withdrawRoth (balance remainingNetNeed : Q) : Q * Q :=
  if Qgtb remainingNetNeed 0 && Qgtb balance 0 then
    if Qgeb balance remainingNetNeed then (balance - remainingNetNeed, 0)
    else (0, remainingNetNeed - balance)
  else (balance, remainingNetNeed).

(** The ordered withdrawal, taxable then pre-tax then roth (lines 270-316).
    The second component is the need left unmet, which the source drops. *)
Definition withdraw (p : SimulationParameters) (netNeed : Q) (b : Ledger)
  : Ledger * Q :=
  let '(t, need1) := withdrawTaxable p (bTaxable b) netNeed in
  let '(q, need2) := withdrawPreTax p (bPreTax b) need1 in
  let '(r, need3) := withdrawRoth (bRoth b) need2 in
  (mkLedger t q r, need3).

(** Lines 322-324. *)
Definition floorAtZero (b : Ledger) : Ledger :=
  mkLedger (if Qltb (bTaxable b) 0 then 0 else bTaxable b)
           (if Qltb (bPreTax b) 0 then 0 else bPreTax b)
           (if Qltb (bRoth b) 0 then 0 else bRoth b).

(** ** SpendingPolicy (lines 237-261) *)

Definition baseTarget (p : SimulationParameters) : Q :=
  minSpending p + discretionarySpending p.

Definition currentFixedIncome (p : SimulationParameters) (age : Z) : Q :=
  if (age >=? fixedIncomeStartAge p)%Z then fixedIncomeAnnual p else 0.

Definition portfolioNeed (p : SimulationParameters) (age : Z) : Q :=
  baseTarget p - currentFixedIncome p age.

Definition maxCutAmount (p : SimulationParameters) : Q :=
  discretionarySpending p * (spendingCutFlexibility p / 100).

Definition actualPortfolioWithdrawal (p : SimulationParameters) (age : Z) (gain : Q)
  : Q :=
  let need := portfolioNeed p age in
  if Qgtb need 0 then
    if Qltb gain need then
      let shortfall := need - gain in
      let actualCut := Qmin shortfall (maxCutAmount p) in
      need - actualCut
    else need
  else need.

(** Decumulation cash flow (lines 233-317): [startTotal] is the total before
    growth, [b] the ledger after growth. *)
Definition decumulate (p : SimulationParameters) (age : Z) (startTotal : Q)
    (b : Ledger) : Ledger :=
  let currentTotal := ledgerTotal b in
  let gain := currentTotal - startTotal in
  let w := actualPortfolioWithdrawal p age gain in
  if Qltb w 0 then depositSurplus w b
  else fst (withdraw p w b).

(** Step 3 (lines 223-319). *)
Definition cashflow (p : SimulationParameters) (year : Z) (startTotal : Q)
    (b : Ledger) : Ledger :=
  if (year >? 0)%Z then
    let age := (currentAge p + year)%Z in
    let isRetired := (age >=? retirementAge p)%Z in
    if negb isRetired then applyContributions p b
    else decumulate p age startTotal b
  else b.

(** Steps 2 and 3 and the floor (lines 208, 216-324) for a sampled return. *)
Definition periodStep (p : SimulationParameters) (year : Z) (realReturn : Q)
    (b : Ledger) : Ledger :=
  let startTotal := ledgerTotal b in
  let grown := if (year >? 0)%Z then applyGrowth realReturn b else b in
  floorAtZero (cashflow p year startTotal grown).

(** One iteration of the year loop (lines 204-324), before recording; [z] is
    the deviate of this iteration's [generateGaussian] call. *)
Definition yearStep (p : SimulationParameters) (year : Z) (z : Q) (b : Ledger)
  : Ledger :=
  let meanRealReturn := expectedReturn p / 100 in
  let vol := volatility p / 100 in
  let realReturn := generateGaussian z meanRealReturn vol in
  periodStep p year realReturn b.

(** ** PathSimulator *)

(** The four parallel arrays of one run (lines 193-196, 332-337). *)
Record Run := mkRun {
  taxable : list Q;
  pretax : list Q;
  roth : list Q;
  total : list Q
}.

Definition emptyRun : Run := mkRun [] [] [] [].

(** Lines 327-330. *)
Definition record (r : Run) (b : Ledger) : Run :=
  mkRun (taxable r ++ [bTaxable b]) (pretax r ++ [bPreTax b])
        (roth r ++ [bRoth b]) (total r ++ [ledgerTotal b]).

Definition yearsToSimulate (p : SimulationParameters) : Z :=
  (lifeExpectancy p - currentAge p)%Z.

(** Number of iterations of [for (i = 0; i <= yearsToSimulate; i++)]. *)
Definition iterations (p : SimulationParameters) : nat :=
  Z.to_nat (yearsToSimulate p + 1).

(** The year loop, [n] iterations left, starting at [year]; [calls] counts
    the calls made to the random source. *)
Fixpoint yearLoop (rng : RandomSource) (p : SimulationParameters) (n : nat)
    (year : Z) (calls : nat) (b : Ledger) (r : Run) : Run * nat :=
  match n with
  | O => (r, calls)
  | S n' =>
      let b' := yearStep p year (rng calls) b in
      yearLoop rng p n' (year + 1)%Z (S calls) b' (record r b')
  end.

Definition initialLedger (p : SimulationParameters) : Ledger :=
  mkLedger (taxableBalance p) (preTaxBalance p) (rothBalance p).

Definition simulatePath (rng : RandomSource) (p : SimulationParameters)
    (calls : nat) : Run * nat :=
  yearLoop rng p (iterations p) 0%Z calls (initialLedger p) emptyRun.

(** ** Aggregator *)

Definition SIMULATIONS : nat := 1000.

(** The simulation loop (lines 191-338), [n] runs left. *)
Fixpoint simLoop (rng : RandomSource) (p : SimulationParameters) (n : nat)
    (calls : nat) (allRuns : list Run) : list Run :=
  match n with
  | O => allRuns
  | S n' =>
      let '(r, calls') := simulatePath rng p calls in
      simLoop rng p n' calls' (allRuns ++ [r])
  end.

Definition simulateAll (rng : RandomSource) (p : SimulationParameters) : list Run :=
  simLoop rng p SIMULATIONS 0%nat [].

(** [Array.prototype.sort(compareFn)]: a stable sort; an element stays
    before the ones it does not compare greater than. *)
Fixpoint insertBy {A : Type} (cmp : A -> A -> Q) (x : A) (l : list A) : list A :=
  match l with
  | [] => [x]
  | y :: ys => if Qleb (cmp x y) 0 then x :: y :: ys else y :: insertBy cmp x ys
  end.

Definition jsSort {A : Type} (cmp : A -> A -> Q) (l : list A) : list A :=
  fold_right (insertBy cmp) [] l.

(** [for (let i = 0; i <= hi; i++) out.push(f(i))]. *)
Definition forUpTo {A : Type} (hi : Z) (f : nat -> A) : list A :=
  map f (seq 0 (Z.to_nat (hi + 1))).

(** [a[a.length - 1]]; [None] is [undefined]. *)
Definition lastOpt {A : Type} (l : list A) : option A :=
  match l with
  | [] => None
  | _ :: _ => nth_error l (length l - 1)
  end.

(** [Array.prototype.findIndex]; [None] is [-1]. *)
Fixpoint findIndex {A : Type} (f : A -> bool) (l : list A) : option nat :=
  match l with
  | [] => None
  | x :: xs => if f x then Some O else option_map S (findIndex f xs)
  end.

(** [Math.floor(SIMULATIONS * q)]. *)
Definition rank (q : Q) : nat :=
  Z.to_nat (Qfloor (inject_Z (Z.of_nat SIMULATIONS) * q)).

Record ProbabilityEntry := mkProb {
  pd_age : Z;
  p20 : Q;
  p50 : Q;
  p80 : Q
}.

Record MedianEntry := mkMedian {
  md_age : Z;
  md_taxable : Q;
  md_pretax : Q;
  md_roth : Q;
  md_total : Q
}.

(** [survivalAge] is a number, or the string [`${lifeExpectancy}+`]. *)
Inductive SurvivalAge :=
| AgeReached (age : Z)
| OpenEnded (lifeExpectancy : Z).

Record AggregateResult := mkResult {
  probabilityData : list ProbabilityEntry;
  medianData : list MedianEntry;
  successRate : Q;
  medianEndWealth : Q;
  survivalAge : SurvivalAge
}.

(** Reading a property of [undefined] throws; nothing else does. *)
Inductive Outcome (A : Type) :=
| Ok (a : A)
| TypeError.
Arguments Ok {A} a.
Arguments TypeError {A}.

Definition bind {A B : Type} (m : Outcome A) (k : A -> Outcome B) : Outcome B :=
  match m with
  | Ok a => k a
  | TypeError => TypeError
  end.

Notation "x <- m ;; k" := (bind m (fun x => k))
  (at level 61, m at next level, right associativity).

(** Line 343: the totals of all runs at index [i], ascending. *)
Definition totalsAt (allRuns : list Run) (i : nat) : list Q :=
  map (fun r => nth i (total r) 0) allRuns.

Definition yearValues (allRuns : list Run) (i : nat) : list Q :=
  jsSort (fun a b => a - b) (totalsAt allRuns i).

(** Lines 344-349. *)
Definition probabilityEntry (p : SimulationParameters) (allRuns : list Run)
    (i : nat) : ProbabilityEntry :=
  let ys := yearValues allRuns i in
  mkProb (currentAge p + Z.of_nat i)
         (nth (rank 0.2) ys 0) (nth (rank 0.5) ys 0) (nth (rank 0.8) ys 0).

(** The comparator of line 354; a [NaN] result counts as [0]. *)
Definition compareFinal (a b : Run) : Q :=
  match lastOpt (total a), lastOpt (total b) with
  | Some lastA, Some lastB => lastA - lastB
  | _, _ => 0
  end.

(** Lines 366-372. *)
Definition medianEntry (p : SimulationParameters) (medianRun : Run) (i : nat)
  : MedianEntry :=
  mkMedian (currentAge p + Z.of_nat i)
           (nth i (taxable medianRun) 0) (nth i (pretax medianRun) 0)
           (nth i (roth medianRun) 0) (nth i (total medianRun) 0).

(** The filter of line 378; [undefined >= x] is false. *)
Definition isSuccess (startTotalNetWorth : Q) (run : Run) : bool :=
  match lastOpt (total run) with
  | Some final => Qgeb final startTotalNetWorth
  | None => false
  end.

Definition startTotalNetWorth (p : SimulationParameters) : Q :=
  taxableBalance p + preTaxBalance p + rothBalance p.

Definition successRateOf (successCount : nat) : Q :=
  (inject_Z (Z.of_nat successCount) / inject_Z (Z.of_nat SIMULATIONS)) * 100.

(** Lines 381-388. *)
Definition survivalAgeOf (p : SimulationParameters)
    (pd : list ProbabilityEntry) : Outcome SurvivalAge :=
  match findIndex (fun d => Qleb (p20 d) 0) pd with
  | Some failYearIndex =>
      match nth_error pd failYearIndex with
      | Some d => Ok (AgeReached (pd_age d))
      | None => TypeError
      end
  | None => Ok (OpenEnded (lifeExpectancy p))
  end.

(** Lines 360-373. *)
Definition medianDataOf (p : SimulationParameters) (sortedRuns : list Run)
  : Outcome (list MedianEntry) :=
  let medianRunIndex := rank 0.5 in
  match nth_error sortedRuns medianRunIndex with
  | Some medianRun => Ok (forUpTo (yearsToSimulate p) (medianEntry p medianRun))
  | None => match iterations p with O => Ok [] | S _ => TypeError end
  end.

(** The body of the timer callback of [runSimulation] (lines 184-396); the
    result is the argument of [setResults]. *)
Definition runSimulation (rng : RandomSource) (p : SimulationParameters)
  : Outcome AggregateResult :=
  let allRuns := simulateAll rng p in
  let pd := forUpTo (yearsToSimulate p) (probabilityEntry p allRuns) in
  let sortedRuns := jsSort compareFinal allRuns in
  md <- medianDataOf p sortedRuns ;;
  let successCount := length (filter (isSuccess (startTotalNetWorth p)) sortedRuns) in
  sa <- survivalAgeOf p pd ;;
  match lastOpt pd with
  | Some d => Ok (mkResult pd md (successRateOf successCount) (p50 d) sa)
  | None => TypeError
  end.

(** ** Examples on a fixed source *)

Definition zeroSource : RandomSource := fun _ => 0.

(** A one-year horizon at the age of [defaultParams]. *)
Definition horizonZeroParams : SimulationParameters :=
  mkParams 35 65 35 50000 5000 40000 10000 10000 6000
           40000 20000 50 0 65 4.5 15 30 50.

(** The parameter invariants of the data model: ordered ages, non-negative
    balances, contributions and spending, percentages within [0, 100]. *)
Definition paramsValid (p : SimulationParameters) : bool :=
  (currentAge p <? retirementAge p)%Z && (retirementAge p <? lifeExpectancy p)%Z
  && Qleb 0 (taxableBalance p) && Qleb 0 (taxableContribution p)
  && Qleb 0 (preTaxBalance p) && Qleb 0 (preTaxContribution p)
  && Qleb 0 (rothBalance p) && Qleb 0 (rothContribution p)
  && Qleb 0 (minSpending p) && Qleb 0 (discretionarySpending p)
  && Qleb 0 (spendingCutFlexibility p) && Qleb (spendingCutFlexibility p) 100
  && Qleb 0 (fixedIncomeAnnual p)
  && Qleb 0 (incomeTaxRate p) && Qleb (incomeTaxRate p) 100
  && Qleb 0 (capitalGainsInclusion p) && Qleb (capitalGainsInclusion p) 100.

(** Fixed income of 50,000 against a target spend of 40,000. *)
Definition surplusParams : SimulationParameters :=
  mkParams 35 65 90 50000 5000 40000 10000 10000 6000
           30000 10000 50 50000 65 4.5 15 30 50.

(** Fixed income of 55,000 against a target spend of 60,000, half of the
    20,000 discretionary part being cuttable. *)
Definition overCutParams : SimulationParameters :=
  mkParams 35 65 90 50000 5000 40000 10000 10000 6000
           40000 20000 50 55000 65 4.5 15 30 50.

(** Equality up to [==] of pairs, ledgers and runs. *)
Definition pairEq (x y : Q * Q) : Prop := fst x == fst y /\ snd x == snd y.

Definition ledgerEq (a b : Ledger) : Prop :=
  bTaxable a == bTaxable b /\ bPreTax a == bPreTax b /\ bRoth a == bRoth b.

Definition runEq (r s : Run) : Prop :=
  Forall2 Qeq (taxable r) (taxable s) /\ Forall2 Qeq (pretax r) (pretax s)
  /\ Forall2 Qeq (roth r) (roth s) /\ Forall2 Qeq (total r) (total s).

(** Every recorded balance of a run is non-negative. *)
Definition ledgerNonneg (b : Ledger) : Prop :=
  0 <= bTaxable b /\ 0 <= bPreTax b /\ 0 <= bRoth b.

Definition runNonneg (r : Run) : Prop :=
  Forall (Qle 0) (taxable r) /\ Forall (Qle 0) (pretax r)
  /\ Forall (Qle 0) (roth r) /\ Forall (Qle 0) (total r).

(** The four arrays of a run have [n] entries. *)
Definition runLength (n : nat) (r : Run) : Prop :=
  length (taxable r) = n /\ length (pretax r) = n
  /\ length (roth r) = n /\ length (total r) = n.

(** Retirement one year away and a target spend of 60,000 against 100,000
    of assets: the accounts are empty at age 66, before [lifeExpectancy]. *)
Definition depletionParams : SimulationParameters :=
  mkParams 64 65 67 50000 5000 40000 10000 10000 6000
           40000 20000 50 0 65 4.5 15 30 50.

(** The outcome of the callback on [depletionParams] with every deviate 0. *)
Definition depletionOutcome : Outcome AggregateResult := Eval vm_compute in
  runSimulation zeroSource depletionParams.

(** The outcome of the callback on [horizonZeroParams] with every deviate 0. *)
Definition horizonZeroOutcome : Outcome AggregateResult := Eval vm_compute in
  runSimulation zeroSource horizonZeroParams.

(** [defaultParams] with [volatility] 0. *)
Definition zeroVolatilityParams : SimulationParameters :=
  mkParams 35 65 90 50000 5000 40000 10000 10000 6000
           40000 20000 50 0 65 4.5 0 30 50.

(** A source whose deviates differ from call to call. *)
Definition rampSource : RandomSource :=
  fun calls => inject_Z (Z.of_nat calls) / 7 - 3.

(** [defaultParams] with [lifeExpectancy] below [currentAge]. *)
Definition negativeHorizonParams : SimulationParameters :=
  mkParams 35 65 30 50000 5000 40000 10000 10000 6000
           40000 20000 50 0 65 4.5 15 30 50.

(** ** Values derived from the parameters for display (lines 409-411, 625) *)

Definition totalAssets (p : SimulationParameters) : Q :=
  taxableBalance p + preTaxBalance p + rothBalance p.

Definition targetSpending (p : SimulationParameters) : Q :=
  minSpending p + discretionarySpending p.

Definition floorSpending (p : SimulationParameters) : Q :=
  minSpending p + (discretionarySpending p * (1 - spendingCutFlexibility p / 100)).

(** The two ends of the "Net Portfolio Need" range (line 625). *)
Definition netPortfolioNeedLow (p : SimulationParameters) : Q :=
  Qmax 0 (floorSpending p - fixedIncomeAnnual p).

Definition netPortfolioNeedHigh (p : SimulationParameters) : Q :=
  Qmax 0 (targetSpending p - fixedIncomeAnnual p).

(** ** The ledgers of a path *)

(** The ledger after each iteration of the year loop, in order: the values
    that [record] pushes. *)
Fixpoint ledgerLoop (rng : RandomSource) (p : SimulationParameters) (n : nat)
    (year : Z) (calls : nat) (b : Ledger) : list Ledger :=
  match n with
  | O => []
  | S n' =>
      let b' := yearStep p year (rng calls) b in
      b' :: ledgerLoop rng p n' (year + 1)%Z (S calls) b'
  end.

Definition ledgerPath (rng : RandomSource) (p : SimulationParameters)
    (calls : nat) : list Ledger :=
  ledgerLoop rng p (iterations p) 0%Z calls (initialLedger p).

(** The four arrays that recording a sequence of ledgers gives. *)
Definition runOf (ls : list Ledger) : Run :=
  mkRun (map bTaxable ls) (map bPreTax ls) (map bRoth ls) (map ledgerTotal ls).

(** The after-tax value of a ledger: what liquidating it would net. *)
Definition afterTaxValue (p : SimulationParameters) (b : Ledger) : Q :=
  bTaxable b * taxableDivisor p + bPreTax b * preTaxDivisor p + bRoth b.

(** ** InputGroup: [handleChange] (lines 45-59) *)

Section InputGroup.

(** JavaScript numbers as the input handler sees them: the conversion
    [Number(...)] of a string, the test [isNaN], and the number 0. *)
Variable num : Type.
Variable Number : String.string -> num.
Variable isNaN : num -> bool.
Variable zero : num.

Definition comma : Ascii.ascii := Ascii.ascii_of_nat 44.
Definition minusSign : Ascii.ascii := Ascii.ascii_of_nat 45.

(** [value.replace(/,/g, '')]. *)
Fixpoint removeCommas (s : String.string) : String.string :=
  match s with
  | String.EmptyString => String.EmptyString
  | String.String c s' =>
      if Ascii.eqb c comma then removeCommas s'
      else String.String c (removeCommas s')
  end.

(** The argument of the call to [onChange], or [None] when the handler
    returns without calling it. *)
Definition handleChange (value : String.string) : option num :=
  let rawValue := removeCommas value in
  if String.eqb rawValue String.EmptyString
     || String.eqb rawValue (String.String minusSign String.EmptyString)
  then Some zero
  else
    let parsed := Number rawValue in
    if negb (isNaN parsed) then Some parsed else None.

End InputGroup.

(** ** Parameter sets that differ only where the engine clamps *)

(** [p] with the two tax percentages replaced. *)
Definition withTaxes (p : SimulationParameters) (rate inclusion : Q)
  : SimulationParameters :=
  mkParams (currentAge p) (retirementAge p) (lifeExpectancy p)
           (taxableBalance p) (taxableContribution p)
           (preTaxBalance p) (preTaxContribution p)
           (rothBalance p) (rothContribution p)
           (minSpending p) (discretionarySpending p) (spendingCutFlexibility p)
           (fixedIncomeAnnual p) (fixedIncomeStartAge p)
           (expectedReturn p) (volatility p) rate inclusion.

(** [p] with the three starting balances replaced. *)
Definition withBalances (p : SimulationParameters) (t q r : Q)
  : SimulationParameters :=
  mkParams (currentAge p) (retirementAge p) (lifeExpectancy p)
           t (taxableContribution p) q (preTaxContribution p)
           r (rothContribution p)
           (minSpending p) (discretionarySpending p) (spendingCutFlexibility p)
           (fixedIncomeAnnual p) (fixedIncomeStartAge p)
           (expectedReturn p) (volatility p)
           (incomeTaxRate p) (capitalGainsInclusion p).

(** One balance after [if (b < 0) b = 0] (lines 322-324). *)
Definition floorBalance (x : Q) : Q := if Qltb x 0 then 0 else x.

(** Two parameter sets that the yearly step cannot tell apart: the same
    ages, contributions, spending, fixed income and market, and the same two
    clamped tax divisors. *)
Definition sameEngine (p p' : SimulationParameters) : Prop :=
  currentAge p = currentAge p' /\ retirementAge p = retirementAge p'
  /\ lifeExpectancy p = lifeExpectancy p'
  /\ taxableContribution p = taxableContribution p'
  /\ preTaxContribution p = preTaxContribution p'
  /\ rothContribution p = rothContribution p'
  /\ minSpending p = minSpending p'
  /\ discretionarySpending p = discretionarySpending p'
  /\ spendingCutFlexibility p = spendingCutFlexibility p'
  /\ fixedIncomeAnnual p = fixedIncomeAnnual p'
  /\ fixedIncomeStartAge p = fixedIncomeStartAge p'
  /\ expectedReturn p = expectedReturn p'
  /\ volatility p = volatility p'
  /\ taxableDivisor p = taxableDivisor p'
  /\ preTaxDivisor p = preTaxDivisor p'.

(** [defaultParams] with an income tax rate of 200 (outside [0, 100]). *)
Definition overTaxedParams : SimulationParameters :=
  mkParams 35 65 90 50000 5000 40000 10000 10000 6000
           40000 20000 50 0 65 4.5 15 200 50.

(** [defaultParams] with a taxable balance of -50000. *)
Definition negativeBalanceParams : SimulationParameters :=
  mkParams 35 65 90 (-50000) 5000 40000 10000 10000 6000
           40000 20000 50 0 65 4.5 15 30 50.

(** * Properties *)

(** ** Comparisons *)

Lemma Qltb_spec (x y : Q) : reflect (x < y) (Qltb x y).
Proof.
  unfold Qltb. destruct (Qle_bool y x) eqn:E; constructor.
  - apply Qle_bool_iff in E. lra.
  - apply Qnot_le_lt. intro H. apply Qle_bool_iff in H. congruence.
Qed.

Lemma Qleb_spec (x y : Q) : reflect (x <= y) (Qleb x y).
Proof.
  unfold Qleb. destruct (Qle_bool x y) eqn:E; constructor.
  - now apply Qle_bool_iff.
  - intro H. apply Qle_bool_iff in H. congruence.
Qed.

Lemma Qgeb_spec (x y : Q) : reflect (y <= x) (Qgeb x y).
Proof. exact (Qleb_spec y x). Qed.

Lemma Qgtb_spec (x y : Q) : reflect (y < x) (Qgtb x y).
Proof. exact (Qltb_spec y x). Qed.

Ltac qcmp :=
  repeat match goal with
  | |- context [Qltb ?x ?y] => destruct (Qltb_spec x y)
  | |- context [Qleb ?x ?y] => destruct (Qleb_spec x y)
  | |- context [Qgeb ?x ?y] => destruct (Qgeb_spec x y)
  | |- context [Qgtb ?x ?y] => destruct (Qgtb_spec x y)
  end.

(** Division by the constant 100, in the form [lra] reads. *)
Ltac div100 :=
  unfold Qdiv in *; change (/ 100) with (1 # 100) in *.

Lemma Qmin_cases (x y : Q) :
  (x <= y /\ Qmin x y == x) \/ (y <= x /\ Qmin x y == y).
Proof.
  destruct (Q.min_spec x y) as [[H E] | [H E]]; [left | right]; split;
    try assumption; lra.
Qed.

(** ** SpendingPolicy *)

Lemma actualPortfolioWithdrawal_shortfall (p : SimulationParameters) (age : Z)
    (gain : Q) :
  0 < portfolioNeed p age -> gain < portfolioNeed p age ->
  actualPortfolioWithdrawal p age gain =
    portfolioNeed p age - Qmin (portfolioNeed p age - gain) (maxCutAmount p).
Proof.
  intros Hneed Hgain. unfold actualPortfolioWithdrawal.
  destruct (Qgtb_spec (portfolioNeed p age) 0); [|contradiction].
  destruct (Qltb_spec gain (portfolioNeed p age)); [reflexivity|contradiction].
Qed.

Lemma actualPortfolioWithdrawal_unchanged (p : SimulationParameters) (age : Z)
    (gain : Q) :
  portfolioNeed p age <= 0 \/ portfolioNeed p age <= gain ->
  actualPortfolioWithdrawal p age gain = portfolioNeed p age.
Proof.
  intros H. unfold actualPortfolioWithdrawal.
  destruct (Qgtb_spec (portfolioNeed p age) 0); [|reflexivity].
  destruct (Qltb_spec gain (portfolioNeed p age)); [|reflexivity].
  lra.
Qed.

Lemma decumulate_withdraws (p : SimulationParameters) (age : Z)
    (startTotal : Q) (b : Ledger) :
  0 <= actualPortfolioWithdrawal p age (ledgerTotal b - startTotal) ->
  decumulate p age startTotal b =
    fst (withdraw p (actualPortfolioWithdrawal p age (ledgerTotal b - startTotal)) b).
Proof.
  intros H. unfold decumulate.
  destruct (Qltb_spec (actualPortfolioWithdrawal p age (ledgerTotal b - startTotal)) 0);
    [lra | reflexivity].
Qed.

Lemma decumulate_deposits (p : SimulationParameters) (age : Z)
    (startTotal : Q) (b : Ledger) :
  actualPortfolioWithdrawal p age (ledgerTotal b - startTotal) < 0 ->
  decumulate p age startTotal b =
    depositSurplus (actualPortfolioWithdrawal p age (ledgerTotal b - startTotal)) b.
Proof.
  intros H. unfold decumulate.
  destruct (Qltb_spec (actualPortfolioWithdrawal p age (ledgerTotal b - startTotal)) 0);
    [reflexivity | contradiction].
Qed.

Lemma cashflow_retired (p : SimulationParameters) (year : Z) (startTotal : Q)
    (b : Ledger) :
  (0 < year)%Z -> (retirementAge p <= currentAge p + year)%Z ->
  cashflow p year startTotal b = decumulate p (currentAge p + year) startTotal b.
Proof.
  intros Hy Hr. unfold cashflow.
  destruct (Z.gtb_spec year 0); [|lia].
  destruct (Z.geb_spec (currentAge p + year) (retirementAge p)); [reflexivity|lia].
Qed.

(** C3: in a retired period with [portfolioNeed > 0] and
    [gain < portfolioNeed], the withdrawal is
    [portfolioNeed - min (portfolioNeed - gain) (discretionarySpending * (spendingCutFlexibility / 100))],
    and this amount, when it is not negative, is the one handed to the
    ordered withdrawal.  With need 60000, gain 40000, discretionary 20000 and
    flexibility 50 it is 50000. *)
Theorem shortfall_cut_withdrawal :
  (forall (p : SimulationParameters) (age : Z) (startTotal : Q) (b : Ledger),
      let gain := ledgerTotal b - startTotal in
      let w := portfolioNeed p age
               - Qmin (portfolioNeed p age - gain)
                      (discretionarySpending p * (spendingCutFlexibility p / 100)) in
      0 < portfolioNeed p age -> gain < portfolioNeed p age ->
      actualPortfolioWithdrawal p age gain = w
      /\ (0 <= w -> decumulate p age startTotal b = fst (withdraw p w b)))
  /\ (forall (p : SimulationParameters) (age : Z),
         portfolioNeed p age == 60000 ->
         discretionarySpending p == 20000 ->
         spendingCutFlexibility p == 50 ->
         actualPortfolioWithdrawal p age 40000 == 50000).
Proof.
  split.
  - intros p age startTotal b gain w Hneed Hgain.
    pose proof (actualPortfolioWithdrawal_shortfall p age gain Hneed Hgain) as E.
    unfold maxCutAmount in E. fold w in E.
    split; [exact E|].
    intros Hw. rewrite <- E. apply decumulate_withdraws.
    fold gain. rewrite E. exact Hw.
  - intros p age Hn Hd Hf.
    rewrite actualPortfolioWithdrawal_shortfall by lra.
    unfold maxCutAmount. rewrite Hn, Hd, Hf.
    destruct (Qmin_cases (60000 - 40000) (20000 * (50 / 100))) as [[H E] | [H E]];
      rewrite E; div100; lra.
Qed.

Lemma shortfall_cut_withdrawal_witness :
  (let b := mkLedger 80000 40000 20000 in
   decumulate defaultParams 70 100000 b
   = fst (withdraw defaultParams
            (portfolioNeed defaultParams 70
             - Qmin (portfolioNeed defaultParams 70 - (ledgerTotal b - 100000))
                    (discretionarySpending defaultParams
                     * (spendingCutFlexibility defaultParams / 100))) b))
  /\ actualPortfolioWithdrawal defaultParams 70 40000 == 50000.
Proof.
  split.
  - intros b.
    pose proof (proj1 shortfall_cut_withdrawal defaultParams 70%Z 100000 b) as H.
    cbv zeta in H. destruct H as [_ H]; [reflexivity | reflexivity |].
    apply H. vm_compute. discriminate.
  - apply (proj2 shortfall_cut_withdrawal defaultParams 70%Z); reflexivity.
Defined.

(** C4: in a retired period whose withdrawal is negative, the cash-flow step
    adds the absolute surplus to the taxable balance and leaves the pre-tax
    and roth balances as they are.  With an active fixed income of 50000 and
    a target spend of 40000 the taxable balance grows by 10000. *)
Theorem surplus_goes_to_taxable_only :
  (forall (p : SimulationParameters) (year : Z) (startTotal : Q) (b : Ledger),
      let w := actualPortfolioWithdrawal p (currentAge p + year)
                 (ledgerTotal b - startTotal) in
      let b' := cashflow p year startTotal b in
      (0 < year)%Z -> (retirementAge p <= currentAge p + year)%Z -> w < 0 ->
      bTaxable b' = bTaxable b + Qabs w /\ Qabs w == - w
      /\ bPreTax b' = bPreTax b /\ bRoth b' = bRoth b)
  /\ (forall (p : SimulationParameters) (year : Z) (startTotal : Q) (b : Ledger),
         let b' := cashflow p year startTotal b in
         (0 < year)%Z -> (retirementAge p <= currentAge p + year)%Z ->
         (fixedIncomeStartAge p <= currentAge p + year)%Z ->
         fixedIncomeAnnual p == 50000 -> baseTarget p == 40000 ->
         bTaxable b' == bTaxable b + 10000
         /\ bPreTax b' = bPreTax b /\ bRoth b' = bRoth b).
Proof.
  split.
  - intros p year startTotal b w b' Hy Hr Hw. subst b'.
    rewrite cashflow_retired by assumption.
    rewrite decumulate_deposits by exact Hw. fold w.
    unfold depositSurplus. cbn [bTaxable bPreTax bRoth].
    repeat split. apply Qabs_neg. lra.
  - intros p year startTotal b b' Hy Hr Hs Hf Ht. subst b'.
    assert (Hn : portfolioNeed p (currentAge p + year) == -10000).
    { unfold portfolioNeed, currentFixedIncome.
      destruct (Z.geb_spec (currentAge p + year) (fixedIncomeStartAge p)); [|lia].
      rewrite Hf, Ht. reflexivity. }
    rewrite cashflow_retired by assumption.
    assert (E : actualPortfolioWithdrawal p (currentAge p + year)
                  (ledgerTotal b - startTotal)
                = portfolioNeed p (currentAge p + year)).
    { apply actualPortfolioWithdrawal_unchanged. left. lra. }
    rewrite decumulate_deposits by (rewrite E; lra).
    rewrite E. unfold depositSurplus. cbn [bTaxable bPreTax bRoth].
    split; [|split; reflexivity].
    rewrite Hn. reflexivity.
Qed.

Lemma surplus_goes_to_taxable_only_witness :
  let b := mkLedger 70000 20000 10000 in
  let w := actualPortfolioWithdrawal surplusParams 70 (ledgerTotal b - 100000) in
  (w < 0 /\ bTaxable (cashflow surplusParams 35 100000 b) = 70000 + Qabs w)
  /\ bTaxable (cashflow surplusParams 35 100000 b) == 70000 + 10000.
Proof.
  intros b w. split.
  - split; [reflexivity|].
    pose proof (proj1 surplus_goes_to_taxable_only surplusParams 35%Z 100000 b) as H.
    cbv zeta in H. destruct H as [H _]; [lia | cbn; lia | reflexivity | exact H].
  - apply (proj2 surplus_goes_to_taxable_only surplusParams 35%Z 100000 b);
      try reflexivity; cbn; lia.
Defined.

(** C10: in a retired period with [portfolioNeed > 0] (fixed income below
    the spending target), a negative gain and a maximal cut above the need,
    the shortfall cut exceeds the need, the withdrawal is negative, and the
    cash-flow step deposits the difference into the taxable account, which
    grows; the other two accounts keep their balances. *)
Theorem over_cut_deposits_into_taxable
    (p : SimulationParameters) (year : Z) (startTotal : Q) (b : Ledger) :
  let age := (currentAge p + year)%Z in
  let gain := ledgerTotal b - startTotal in
  let actualCut := Qmin (portfolioNeed p age - gain) (maxCutAmount p) in
  let w := actualPortfolioWithdrawal p age gain in
  let b' := cashflow p year startTotal b in
  (0 < year)%Z -> (retirementAge p <= age)%Z ->
  0 < portfolioNeed p age -> gain < 0 -> portfolioNeed p age < maxCutAmount p ->
  currentFixedIncome p age < baseTarget p
  /\ portfolioNeed p age < actualCut
  /\ w = portfolioNeed p age - actualCut /\ w < 0
  /\ bTaxable b' == bTaxable b + (actualCut - portfolioNeed p age)
  /\ bTaxable b < bTaxable b'
  /\ bPreTax b' = bPreTax b /\ bRoth b' = bRoth b.
Proof.
  intros age gain actualCut w b' Hy Hr Hneed Hgain Hcut.
  assert (Hfix : currentFixedIncome p age < baseTarget p)
    by (unfold portfolioNeed in Hneed; lra).
  assert (Hac : portfolioNeed p age < actualCut).
  { subst actualCut.
    destruct (Qmin_cases (portfolioNeed p age - gain) (maxCutAmount p))
      as [[_ E] | [_ E]]; rewrite E; lra. }
  assert (Ew : w = portfolioNeed p age - actualCut)
    by (apply actualPortfolioWithdrawal_shortfall; lra).
  assert (Hw : w < 0) by (rewrite Ew; lra).
  assert (Eb : b' = depositSurplus w b).
  { subst b'. rewrite cashflow_retired by assumption.
    apply decumulate_deposits. exact Hw. }
  assert (Ha : Qabs w == - w) by (apply Qabs_neg; lra).
  rewrite Eb. unfold depositSurplus. cbn [bTaxable bPreTax bRoth]. rewrite Ha, Ew.
  repeat split; try assumption; lra.
Qed.

Lemma over_cut_deposits_into_taxable_witness :
  let b := mkLedger 100000 0 0 in
  0 < portfolioNeed overCutParams 70
  /\ bTaxable b < bTaxable (cashflow overCutParams 35 120000 b).
Proof.
  intros b. split; [reflexivity|].
  refine (proj1 (proj2 (proj2 (proj2 (proj2 (proj2
    (over_cut_deposits_into_taxable overCutParams 35%Z 120000 b _ _ _ _ _)))))));
    try reflexivity; cbn; lia.
Defined.

(** ** AccountLedger: the operations respect [==] *)

Lemma clampDivisor_wd (x y : Q) : x == y -> clampDivisor x == clampDivisor y.
Proof. intros E. unfold clampDivisor. qcmp; lra. Qed.

Lemma clampDivisor_pos (x : Q) : 0 < clampDivisor x.
Proof. unfold clampDivisor. qcmp; lra. Qed.

Lemma grossUpStage_wd (d d' b b' n n' : Q) :
  d == d' -> b == b' -> n == n' ->
  pairEq (grossUpStage d b n) (grossUpStage d' b' n').
Proof.
  intros Ed Eb En. unfold grossUpStage, pairEq.
  assert (Eg : n / d == n' / d') by (rewrite Ed, En; reflexivity).
  assert (Em : b * d == b' * d') by (rewrite Ed, Eb; reflexivity).
  set (g := n / d) in *. set (g' := n' / d') in *.
  set (m := b * d) in *. set (m' := b' * d') in *.
  qcmp; cbn [andb fst snd]; split; lra.
Qed.

Lemma withdrawRoth_wd (b b' n n' : Q) :
  b == b' -> n == n' -> pairEq (withdrawRoth b n) (withdrawRoth b' n').
Proof.
  intros Eb En. unfold withdrawRoth, pairEq.
  qcmp; cbn [andb fst snd]; split; lra.
Qed.

Lemma withdraw_wd (p : SimulationParameters) (n n' : Q) (b b' : Ledger) :
  n == n' -> ledgerEq b b' ->
  ledgerEq (fst (withdraw p n b)) (fst (withdraw p n' b')).
Proof.
  intros En (Et & Ep & Er). unfold withdraw, withdrawTaxable, withdrawPreTax.
  pose proof (grossUpStage_wd (taxableDivisor p) (taxableDivisor p)
                (bTaxable b) (bTaxable b') n n' (Qeq_refl _) Et En) as [H1 H2].
  destruct (grossUpStage (taxableDivisor p) (bTaxable b) n) as [t n1].
  destruct (grossUpStage (taxableDivisor p) (bTaxable b') n') as [t' n1'].
  cbn [fst snd] in H1, H2.
  pose proof (grossUpStage_wd (preTaxDivisor p) (preTaxDivisor p)
                (bPreTax b) (bPreTax b') n1 n1' (Qeq_refl _) Ep H2) as [H3 H4].
  destruct (grossUpStage (preTaxDivisor p) (bPreTax b) n1) as [q n2].
  destruct (grossUpStage (preTaxDivisor p) (bPreTax b') n1') as [q' n2'].
  cbn [fst snd] in H3, H4.
  pose proof (withdrawRoth_wd (bRoth b) (bRoth b') n2 n2' Er H4) as [H5 H6].
  destruct (withdrawRoth (bRoth b) n2) as [r n3].
  destruct (withdrawRoth (bRoth b') n2') as [r' n3'].
  cbn [fst snd] in H5, H6. cbn. repeat split; assumption.
Qed.

(** C2: with inclusion 50 and income tax 30 the taxable factor is 0.85; a
    net need of 10000 against a taxable balance of 5000 liquidates the
    account for 5000 * 0.85 = 4250 net, leaves the taxable balance at 0,
    and hands a net need of 5750 to the pre-tax stage. *)
Theorem taxable_liquidated_then_pretax (p : SimulationParameters) :
  capitalGainsInclusion p == 50 -> incomeTaxRate p == 30 ->
  taxableDivisor p == 0.85
  /\ 5000 * taxableDivisor p == 4250
  /\ fst (withdrawTaxable p 5000 10000) == 0
  /\ snd (withdrawTaxable p 5000 10000) == 5750
  /\ forall b : Ledger,
       bTaxable b = 5000 ->
       withdraw p 10000 b =
         (let '(q, need2) := withdrawPreTax p (bPreTax b)
                               (snd (withdrawTaxable p 5000 10000)) in
          let '(r, need3) := withdrawRoth (bRoth b) need2 in
          (mkLedger (fst (withdrawTaxable p 5000 10000)) q r, need3)).
Proof.
  intros Hc Ht.
  assert (Ed : taxableDivisor p == 0.85).
  { unfold taxableDivisor.
    rewrite (clampDivisor_wd _ (1 - 50 / 100 * (30 / 100)))
      by (rewrite Hc, Ht; reflexivity).
    reflexivity. }
  pose proof (grossUpStage_wd (taxableDivisor p) 0.85 5000 5000 10000 10000
                Ed (Qeq_refl _) (Qeq_refl _)) as [H1 H2].
  fold (withdrawTaxable p 5000 10000) in H1, H2.
  repeat split.
  - exact Ed.
  - rewrite Ed. reflexivity.
  - rewrite H1. reflexivity.
  - rewrite H2. reflexivity.
  - intros b Hb. unfold withdraw. rewrite Hb.
    destruct (withdrawTaxable p 5000 10000) as [t n1]. reflexivity.
Qed.

Lemma taxable_liquidated_then_pretax_witness :
  snd (withdrawTaxable defaultParams 5000 10000) == 5750.
Proof.
  refine (proj1 (proj2 (proj2 (proj2
    (taxable_liquidated_then_pretax defaultParams _ _))))); reflexivity.
Defined.

(** ** PathSimulator: floor and length of the recorded arrays *)

Lemma floorAtZero_nonneg (b : Ledger) : ledgerNonneg (floorAtZero b).
Proof.
  unfold ledgerNonneg, floorAtZero. cbn [bTaxable bPreTax bRoth].
  repeat split; qcmp; lra.
Qed.

Lemma yearStep_nonneg (p : SimulationParameters) (year : Z) (z : Q) (b : Ledger) :
  ledgerNonneg (yearStep p year z b).
Proof. apply floorAtZero_nonneg. Qed.

Lemma record_nonneg (r : Run) (b : Ledger) :
  runNonneg r -> ledgerNonneg b -> runNonneg (record r b).
Proof.
  intros (Ht & Hp & Hr & Hs) (Bt & Bp & Br).
  unfold runNonneg, record. cbn [taxable pretax roth total].
  repeat split; apply Forall_app; split; try assumption;
    constructor; try constructor; try assumption.
  unfold ledgerTotal. lra.
Qed.

Lemma record_length (n : nat) (r : Run) (b : Ledger) :
  runLength n r -> runLength (S n) (record r b).
Proof.
  intros (Ht & Hp & Hr & Hs).
  unfold runLength, record. cbn [taxable pretax roth total].
  rewrite !length_app. cbn [length]. lia.
Qed.

Lemma yearLoop_nonneg (rng : RandomSource) (p : SimulationParameters) (n : nat) :
  forall (year : Z) (calls : nat) (b : Ledger) (r : Run),
    runNonneg r -> runNonneg (fst (yearLoop rng p n year calls b r)).
Proof.
  induction n as [|n IH]; intros year calls b r Hr; cbn [yearLoop].
  - exact Hr.
  - apply IH. apply record_nonneg; [exact Hr | apply yearStep_nonneg].
Qed.

Lemma yearLoop_length (rng : RandomSource) (p : SimulationParameters) (n : nat) :
  forall (year : Z) (calls : nat) (b : Ledger) (r : Run) (k : nat),
    runLength k r -> runLength (n + k) (fst (yearLoop rng p n year calls b r)).
Proof.
  induction n as [|n IH]; intros year calls b r k Hr; cbn [yearLoop].
  - exact Hr.
  - replace (S n + k)%nat with (n + S k)%nat by lia.
    apply IH. apply record_length. exact Hr.
Qed.

Lemma emptyRun_nonneg : runNonneg emptyRun.
Proof. repeat split; constructor. Qed.

Lemma simulatePath_nonneg (rng : RandomSource) (p : SimulationParameters)
    (calls : nat) : runNonneg (fst (simulatePath rng p calls)).
Proof. apply yearLoop_nonneg. exact emptyRun_nonneg. Qed.

Lemma simulatePath_length (rng : RandomSource) (p : SimulationParameters)
    (calls : nat) : runLength (iterations p) (fst (simulatePath rng p calls)).
Proof.
  unfold simulatePath.
  replace (iterations p) with (iterations p + 0)%nat at 1 by lia.
  apply yearLoop_length. repeat split.
Qed.

(** ** Aggregator: the simulation loop *)

Lemma simLoop_Forall (P : Run -> Prop) (rng : RandomSource)
    (p : SimulationParameters) :
  (forall calls, P (fst (simulatePath rng p calls))) ->
  forall (n calls : nat) (acc : list Run),
    Forall P acc -> Forall P (simLoop rng p n calls acc).
Proof.
  intros HP. induction n as [|n IH]; intros calls acc Hacc; cbn [simLoop].
  - exact Hacc.
  - pose proof (HP calls) as H.
    destruct (simulatePath rng p calls) as [r calls'].
    apply IH. apply Forall_app. split; [exact Hacc|].
    constructor; [exact H | constructor].
Qed.

Lemma simLoop_length (rng : RandomSource) (p : SimulationParameters) :
  forall (n calls : nat) (acc : list Run),
    length (simLoop rng p n calls acc) = (length acc + n)%nat.
Proof.
  induction n as [|n IH]; intros calls acc; cbn [simLoop].
  - lia.
  - destruct (simulatePath rng p calls) as [r calls'].
    rewrite IH, length_app. cbn [length]. lia.
Qed.

Lemma simulateAll_length (rng : RandomSource) (p : SimulationParameters) :
  length (simulateAll rng p) = SIMULATIONS.
Proof. unfold simulateAll. rewrite simLoop_length. reflexivity. Qed.

Lemma simulateAll_Forall (P : Run -> Prop) (rng : RandomSource)
    (p : SimulationParameters) :
  (forall calls, P (fst (simulatePath rng p calls))) ->
  Forall P (simulateAll rng p).
Proof. intros HP. apply simLoop_Forall; [exact HP | constructor]. Qed.

(** C5: in every generated trajectory, every recorded taxable, pre-tax, roth
    and total balance is non-negative, at each of the
    [yearsToSimulate + 1] recorded ages of each of the 1000 runs. *)
Theorem recorded_balances_nonneg (rng : RandomSource) (p : SimulationParameters) :
  length (simulateAll rng p) = 1000%nat
  /\ Forall (fun r => runLength (iterations p) r /\ runNonneg r)
            (simulateAll rng p).
Proof.
  split; [apply simulateAll_length|].
  apply simulateAll_Forall. intros calls. split.
  - apply simulatePath_length.
  - apply simulatePath_nonneg.
Qed.

(** ** Lists: sorting, last element, first index *)

Lemma insertBy_perm {A : Type} (cmp : A -> A -> Q) (x : A) (l : list A) :
  Permutation (x :: l) (insertBy cmp x l).
Proof.
  induction l as [|y ys IH]; cbn [insertBy].
  - apply Permutation_refl.
  - destruct (Qleb (cmp x y) 0).
    + apply Permutation_refl.
    + eapply perm_trans; [apply perm_swap|]. apply perm_skip. exact IH.
Qed.

Lemma jsSort_perm {A : Type} (cmp : A -> A -> Q) (l : list A) :
  Permutation l (jsSort cmp l).
Proof.
  induction l as [|x xs IH]; cbn [jsSort fold_right].
  - apply Permutation_refl.
  - eapply perm_trans; [apply perm_skip; exact IH|]. apply insertBy_perm.
Qed.

Lemma jsSort_length {A : Type} (cmp : A -> A -> Q) (l : list A) :
  length (jsSort cmp l) = length l.
Proof. symmetry. apply Permutation_length. apply jsSort_perm. Qed.

Lemma insertBy_sorted (x : Q) (l : list Q) :
  StronglySorted Qle l -> StronglySorted Qle (insertBy (fun a b => a - b) x l).
Proof.
  induction 1 as [|y ys Hs IH Hy]; cbn [insertBy].
  - constructor; constructor.
  - destruct (Qleb_spec (x - y) 0) as [Hle | Hgt].
    + constructor; [constructor; assumption|].
      constructor; [lra|].
      eapply Forall_impl; [|exact Hy]. intros a Ha. cbn in Ha. lra.
    + constructor; [exact IH|].
      eapply Permutation_Forall; [apply insertBy_perm|].
      constructor; [lra | exact Hy].
Qed.

Lemma jsSort_sorted (l : list Q) :
  StronglySorted Qle (jsSort (fun a b => a - b) l).
Proof.
  induction l as [|x xs IH]; cbn [jsSort fold_right].
  - constructor.
  - apply insertBy_sorted. exact IH.
Qed.

Lemma StronglySorted_nth (l : list Q) :
  StronglySorted Qle l ->
  forall i j : nat, (i <= j < length l)%nat -> nth i l 0 <= nth j l 0.
Proof.
  induction 1 as [|x xs Hs IH Hx]; intros i j Hij; cbn [length] in Hij.
  - lia.
  - destruct i as [|i], j as [|j]; cbn [nth]; try lia.
    + lra.
    + rewrite Forall_forall in Hx. apply Hx. apply nth_In. lia.
    + apply IH. lia.
Qed.

Lemma lastOpt_Some {A : Type} (l : list A) :
  l <> [] -> exists x, lastOpt l = Some x /\ nth_error l (length l - 1) = Some x.
Proof.
  intros Hl. destruct l as [|a l]; [congruence|].
  unfold lastOpt.
  destruct (nth_error (a :: l) (length (a :: l) - 1)) as [x|] eqn:E.
  - exists x. split; reflexivity.
  - apply nth_error_None in E. cbn [length] in E. lia.
Qed.

Lemma findIndex_Some {A : Type} (f : A -> bool) (l : list A) :
  forall i : nat,
    findIndex f l = Some i ->
    (exists x, nth_error l i = Some x /\ f x = true)
    /\ forall (j : nat) (y : A), (j < i)%nat -> nth_error l j = Some y -> f y = false.
Proof.
  induction l as [|a l IH]; intros i H; cbn [findIndex] in H; [discriminate|].
  destruct (f a) eqn:Fa.
  - injection H as <-. split; [exists a; split; [reflexivity | exact Fa]|].
    intros j y Hj. lia.
  - destruct (findIndex f l) as [k|]; [|discriminate].
    injection H as <-. destruct (IH k eq_refl) as [Hx Hlt]. split.
    + exact Hx.
    + intros [|j] y Hj Hy; cbn [nth_error] in Hy.
      * injection Hy as <-. exact Fa.
      * apply (Hlt j); [lia | exact Hy].
Qed.

Lemma findIndex_None {A : Type} (f : A -> bool) (l : list A) :
  findIndex f l = None <-> Forall (fun x => f x = false) l.
Proof.
  induction l as [|a l IH]; cbn [findIndex].
  - split; [constructor | reflexivity].
  - destruct (f a) eqn:Fa.
    + split; [discriminate|]. intros H. inversion H; congruence.
    + destruct (findIndex f l) as [k|]; cbn [option_map].
      * split; [discriminate|]. intros H. inversion H as [|? ? _ Hl].
        apply IH in Hl. discriminate.
      * split; [|reflexivity]. intros _. constructor; [exact Fa|].
        apply IH. reflexivity.
Qed.

Lemma forUpTo_length {A : Type} (hi : Z) (f : nat -> A) :
  length (forUpTo hi f) = Z.to_nat (hi + 1).
Proof. unfold forUpTo. rewrite length_map, length_seq. reflexivity. Qed.

Lemma forUpTo_nth_error {A : Type} (hi : Z) (f : nat -> A) (i : nat) :
  (i < Z.to_nat (hi + 1))%nat -> nth_error (forUpTo hi f) i = Some (f i).
Proof.
  intros Hi. unfold forUpTo.
  rewrite nth_error_map, nth_error_seq.
  destruct (Nat.ltb_spec i (Z.to_nat (hi + 1))); [reflexivity | lia].
Qed.

Lemma forUpTo_inv {A : Type} (hi : Z) (f : nat -> A) (i : nat) (x : A) :
  nth_error (forUpTo hi f) i = Some x ->
  (i < Z.to_nat (hi + 1))%nat /\ x = f i.
Proof.
  intros H.
  assert (Hi : (i < Z.to_nat (hi + 1))%nat).
  { rewrite <- (forUpTo_length hi f). apply nth_error_Some. congruence. }
  split; [exact Hi|]. rewrite forUpTo_nth_error in H by exact Hi. congruence.
Qed.

(** ** Aggregator: the result *)

Lemma rank_20 : rank 0.2 = 200%nat.
Proof. vm_compute. reflexivity. Qed.

Lemma rank_50 : rank 0.5 = 500%nat.
Proof. vm_compute. reflexivity. Qed.

Lemma rank_80 : rank 0.8 = 800%nat.
Proof. vm_compute. reflexivity. Qed.

Lemma survivalAgeOf_returns (p : SimulationParameters) (pd : list ProbabilityEntry) :
  exists sa, survivalAgeOf p pd = Ok sa.
Proof.
  unfold survivalAgeOf.
  destruct (findIndex (fun d => Qleb (p20 d) 0) pd) as [i|] eqn:E.
  - destruct (findIndex_Some _ _ _ E) as [(d & Hd & _) _].
    rewrite Hd. eexists. reflexivity.
  - eexists. reflexivity.
Qed.

Lemma medianDataOf_returns (p : SimulationParameters) (sortedRuns : list Run) :
  length sortedRuns = SIMULATIONS ->
  exists md, medianDataOf p sortedRuns = Ok md.
Proof.
  intros Hlen. unfold medianDataOf.
  destruct (nth_error sortedRuns (rank 0.5)) as [r|] eqn:E.
  - eexists. reflexivity.
  - apply nth_error_None in E. rewrite Hlen, rank_50 in E.
    unfold SIMULATIONS in E. lia.
Qed.

(** With a horizon that is not negative the callback reaches [setResults],
    and the fields of the result are the values computed on the way. *)
Lemma runSimulation_returns (rng : RandomSource) (p : SimulationParameters) :
  (0 <= yearsToSimulate p)%Z ->
  exists (r : AggregateResult) (d : ProbabilityEntry),
    runSimulation rng p = Ok r
    /\ probabilityData r =
         forUpTo (yearsToSimulate p) (probabilityEntry p (simulateAll rng p))
    /\ medianDataOf p (jsSort compareFinal (simulateAll rng p)) = Ok (medianData r)
    /\ successRate r =
         successRateOf
           (length (filter (isSuccess (startTotalNetWorth p))
                           (jsSort compareFinal (simulateAll rng p))))
    /\ survivalAgeOf p (probabilityData r) = Ok (survivalAge r)
    /\ lastOpt (probabilityData r) = Some d
    /\ medianEndWealth r = p50 d.
Proof.
  intros Hy. unfold runSimulation.
  set (allRuns := simulateAll rng p).
  set (pd := forUpTo (yearsToSimulate p) (probabilityEntry p allRuns)).
  set (sortedRuns := jsSort compareFinal allRuns).
  destruct (medianDataOf_returns p sortedRuns) as [md Hmd].
  { subst sortedRuns. rewrite jsSort_length. apply simulateAll_length. }
  destruct (survivalAgeOf_returns p pd) as [sa Hsa].
  destruct (lastOpt_Some pd) as (d & Hd & _).
  { intros E. apply (f_equal (@length _)) in E. subst pd.
    rewrite forUpTo_length in E. cbn [length] in E. lia. }
  rewrite Hmd, Hsa. cbn [bind]. rewrite Hd.
  eexists. exists d. split; [reflexivity|].
  cbn [probabilityData medianData successRate survivalAge medianEndWealth].
  repeat split; assumption.
Qed.

Lemma runSimulation_negative_horizon (rng : RandomSource) (p : SimulationParameters) :
  (yearsToSimulate p < 0)%Z -> runSimulation rng p = TypeError.
Proof.
  intros Hy. unfold runSimulation.
  assert (E : forall (A : Type) (f : nat -> A), forUpTo (yearsToSimulate p) f = []).
  { intros A f. unfold forUpTo.
    replace (Z.to_nat (yearsToSimulate p + 1)) with 0%nat by lia. reflexivity. }
  rewrite E.
  destruct (medianDataOf p (jsSort compareFinal (simulateAll rng p)));
    [|reflexivity].
  cbn [bind]. destruct (survivalAgeOf p []); reflexivity.
Qed.

(** Every run records a total at every index of the year loop. *)
Lemma totalsAt_in_range (rng : RandomSource) (p : SimulationParameters) (i : nat) :
  (i < iterations p)%nat ->
  Forall2 (fun run x => nth_error (total run) i = Some x)
          (simulateAll rng p) (totalsAt (simulateAll rng p) i).
Proof.
  intros Hi.
  pose proof (simulateAll_Forall (runLength (iterations p)) rng p
                (simulatePath_length rng p)) as H.
  unfold totalsAt. induction H as [|r l Hr _ IH]; cbn [map]; constructor.
  - destruct Hr as (_ & _ & _ & Hlen).
    apply nth_error_nth'. lia.
  - exact IH.
Qed.

(** C6: at every age index the entry of [probabilityData] holds the values
    at indices 200, 500 and 800 (the floors of 1000 * 0.2, 0.5, 0.8) of the
    ascending sort of the 1000 totals at that index, taken as they are, and
    [p20 <= p50 <= p80]. *)
Theorem percentiles_nearest_rank_ordered
    (rng : RandomSource) (p : SimulationParameters) :
  (0 <= yearsToSimulate p)%Z ->
  exists r : AggregateResult,
    runSimulation rng p = Ok r
    /\ length (probabilityData r) = Z.to_nat (yearsToSimulate p + 1)
    /\ forall (i : nat) (d : ProbabilityEntry),
         nth_error (probabilityData r) i = Some d ->
         let totals := totalsAt (simulateAll rng p) i in
         let ys := yearValues (simulateAll rng p) i in
         Forall2 (fun run x => nth_error (total run) i = Some x)
                 (simulateAll rng p) totals
         /\ Permutation totals ys /\ StronglySorted Qle ys
         /\ length ys = 1000%nat
         /\ Z.to_nat (Qfloor (1000 * 0.2)) = 200%nat
         /\ Z.to_nat (Qfloor (1000 * 0.5)) = 500%nat
         /\ Z.to_nat (Qfloor (1000 * 0.8)) = 800%nat
         /\ pd_age d = (currentAge p + Z.of_nat i)%Z
         /\ p20 d = nth 200 ys 0 /\ p50 d = nth 500 ys 0 /\ p80 d = nth 800 ys 0
         /\ p20 d <= p50 d /\ p50 d <= p80 d.
Proof.
  intros Hy.
  destruct (runSimulation_returns rng p Hy) as (r & dl & Hr & Hpd & _).
  exists r. split; [exact Hr|]. split.
  { rewrite Hpd. apply forUpTo_length. }
  intros i d Hd totals ys. rewrite Hpd in Hd.
  apply forUpTo_inv in Hd. destruct Hd as [Hi ->].
  assert (Hlen : length ys = 1000%nat).
  { subst ys. unfold yearValues. rewrite jsSort_length. unfold totalsAt.
    rewrite length_map. apply simulateAll_length. }
  assert (Hs : StronglySorted Qle ys) by apply jsSort_sorted.
  unfold probabilityEntry. fold ys. cbn [pd_age p20 p50 p80].
  rewrite rank_20, rank_50, rank_80.
  repeat split; try reflexivity.
  - apply totalsAt_in_range. exact Hi.
  - apply jsSort_perm.
  - exact Hs.
  - exact Hlen.
  - apply StronglySorted_nth; [exact Hs | rewrite Hlen; lia].
  - apply StronglySorted_nth; [exact Hs | rewrite Hlen; lia].
Qed.

Lemma percentiles_nearest_rank_ordered_witness :
  exists r : AggregateResult,
    runSimulation zeroSource defaultParams = Ok r
    /\ length (probabilityData r) = 56%nat.
Proof.
  destruct (percentiles_nearest_rank_ordered zeroSource defaultParams)
    as (r & Hr & Hlen & _).
  - cbn. lia.
  - exists r. split; [exact Hr | exact Hlen].
Defined.

(** ** The callback on the example parameters *)

Lemma depletionParams_run :
  runSimulation zeroSource depletionParams = depletionOutcome.
Proof. vm_compute. reflexivity. Qed.

Lemma horizonZeroParams_run :
  runSimulation zeroSource horizonZeroParams = horizonZeroOutcome.
Proof. vm_compute. reflexivity. Qed.

(** ** Survival age *)

Lemma survivalAgeOf_first (p : SimulationParameters) (pd : list ProbabilityEntry)
    (i : nat) (d : ProbabilityEntry) :
  nth_error pd i = Some d -> p20 d <= 0 ->
  (forall (j : nat) (e : ProbabilityEntry),
      (j < i)%nat -> nth_error pd j = Some e -> 0 < p20 e) ->
  survivalAgeOf p pd = Ok (AgeReached (pd_age d)).
Proof.
  intros Hd Hle Hbefore. unfold survivalAgeOf.
  destruct (findIndex (fun d => Qleb (p20 d) 0) pd) as [k|] eqn:E.
  - destruct (findIndex_Some _ _ _ E) as [(x & Hx & Fx) Hlt].
    destruct (Qleb_spec (p20 x) 0) as [Hx0|]; [|discriminate].
    assert (k = i) as ->.
    { destruct (Nat.lt_trichotomy k i) as [Hki | [Hki | Hki]]; [|exact Hki|].
      - specialize (Hbefore k x Hki Hx). lra.
      - specialize (Hlt i d Hki Hd). cbn in Hlt.
        destruct (Qleb_spec (p20 d) 0); [discriminate | contradiction]. }
    rewrite Hx. congruence.
  - apply findIndex_None in E. rewrite Forall_forall in E.
    specialize (E d (nth_error_In _ _ Hd)). cbn in E.
    destruct (Qleb_spec (p20 d) 0); [discriminate | contradiction].
Qed.

Lemma survivalAgeOf_none (p : SimulationParameters) (pd : list ProbabilityEntry) :
  Forall (fun d => 0 < p20 d) pd ->
  survivalAgeOf p pd = Ok (OpenEnded (lifeExpectancy p)).
Proof.
  intros H. unfold survivalAgeOf.
  replace (findIndex (fun d => Qleb (p20 d) 0) pd) with (@None nat); [reflexivity|].
  symmetry. apply findIndex_None.
  eapply Forall_impl; [|exact H]. intros d Hd. cbn in Hd.
  destruct (Qleb_spec (p20 d) 0); [lra | reflexivity].
Qed.

(** C7: [survivalAge] is the age of the first entry of [probabilityData],
    in ascending age order, whose [p20] is [<= 0]; when no entry has one it
    is the open-ended value built from [lifeExpectancy], which is not an
    age. *)
Theorem survivalAge_first_p20_nonpositive
    (rng : RandomSource) (p : SimulationParameters) :
  (0 <= yearsToSimulate p)%Z ->
  exists r : AggregateResult,
    runSimulation rng p = Ok r
    /\ (forall (i : nat) (d : ProbabilityEntry),
           nth_error (probabilityData r) i = Some d -> p20 d <= 0 ->
           (forall (j : nat) (e : ProbabilityEntry),
               (j < i)%nat -> nth_error (probabilityData r) j = Some e ->
               0 < p20 e) ->
           survivalAge r = AgeReached (pd_age d)
           /\ pd_age d = (currentAge p + Z.of_nat i)%Z)
    /\ (Forall (fun d => 0 < p20 d) (probabilityData r) ->
        survivalAge r = OpenEnded (lifeExpectancy p)
        /\ forall age : Z, survivalAge r <> AgeReached age).
Proof.
  intros Hy.
  destruct (runSimulation_returns rng p Hy) as (r & dl & Hr & Hpd & _ & _ & Hsa & _).
  exists r. split; [exact Hr|]. split.
  - intros i d Hd Hle Hbefore.
    rewrite (survivalAgeOf_first p _ i d Hd Hle Hbefore) in Hsa.
    split; [congruence|].
    rewrite Hpd in Hd. apply forUpTo_inv in Hd. destruct Hd as [_ ->].
    reflexivity.
  - intros Hall. rewrite (survivalAgeOf_none p _ Hall) in Hsa.
    injection Hsa as <-. split; [reflexivity | discriminate].
Qed.

Lemma survivalAge_first_p20_nonpositive_witness :
  (exists r : AggregateResult,
      runSimulation zeroSource depletionParams = Ok r
      /\ survivalAge r = AgeReached 66)
  /\ (exists r : AggregateResult,
         runSimulation zeroSource horizonZeroParams = Ok r
         /\ survivalAge r = OpenEnded 35).
Proof.
  split.
  - destruct (survivalAge_first_p20_nonpositive zeroSource depletionParams)
      as (r & Hr & Hfirst & _).
    + cbn. lia.
    + exists r. split; [exact Hr|].
      rewrite depletionParams_run in Hr. injection Hr as <-.
      refine (proj1 (Hfirst 2%nat _ eq_refl _ _)).
      * cbn. discriminate.
      * intros [|[|j]] e Hj He; [| |lia]; cbn in He; injection He as <-;
          reflexivity.
  - destruct (survivalAge_first_p20_nonpositive zeroSource horizonZeroParams)
      as (r & Hr & _ & Hopen).
    + cbn. lia.
    + exists r. split; [exact Hr|].
      rewrite horizonZeroParams_run in Hr. injection Hr as <-.
      apply Hopen. repeat constructor.
Defined.

(** ** Success rate *)

Lemma filter_length_perm {A : Type} (f : A -> bool) (l l' : list A) :
  Permutation l l' -> length (filter f l) = length (filter f l').
Proof.
  induction 1 as [|x l l' _ IH|x y l|l l' l'' _ IH1 _ IH2]; cbn [filter].
  - reflexivity.
  - destruct (f x); cbn [length]; congruence.
  - destruct (f x), (f y); reflexivity.
  - congruence.
Qed.

Lemma isSuccess_iff (start : Q) (run : Run) :
  isSuccess start run = true <->
  exists final, lastOpt (total run) = Some final /\ start <= final.
Proof.
  unfold isSuccess. destruct (lastOpt (total run)) as [x|].
  - destruct (Qgeb_spec x start) as [H | H]; split.
    + intros _. exists x. split; [reflexivity | exact H].
    + reflexivity.
    + discriminate.
    + intros (y & Hy & Hle). injection Hy as ->. contradiction.
  - split; [discriminate|]. intros (y & Hy & _). discriminate.
Qed.

Lemma successRateOf_bounds (count : nat) :
  (count <= SIMULATIONS)%nat ->
  0 <= successRateOf count /\ successRateOf count <= 100.
Proof.
  intros Hc. unfold successRateOf.
  assert (H0 : 0 <= inject_Z (Z.of_nat count)).
  { change 0 with (inject_Z 0). rewrite <- Zle_Qle. lia. }
  assert (H1 : inject_Z (Z.of_nat count) <= 1000).
  { change 1000 with (inject_Z (Z.of_nat SIMULATIONS)). rewrite <- Zle_Qle. lia. }
  unfold Qdiv.
  change (/ inject_Z (Z.of_nat SIMULATIONS)) with (1 # 1000).
  split; lra.
Qed.

(** C1 (amended): [successRate] is the number of trajectories whose final
    total is at least the initial net worth
    [taxableBalance + preTaxBalance + rothBalance], divided by 1000 and
    multiplied by 100: a percentage in [0, 100]. *)
Theorem successRate_is_percentage (rng : RandomSource) (p : SimulationParameters) :
  (0 <= yearsToSimulate p)%Z ->
  exists r : AggregateResult,
    runSimulation rng p = Ok r
    /\ let start := taxableBalance p + preTaxBalance p + rothBalance p in
       let count := length (filter (isSuccess start) (simulateAll rng p)) in
       (forall run : Run,
           isSuccess start run = true <->
           exists final, lastOpt (total run) = Some final /\ start <= final)
       /\ (count <= 1000)%nat
       /\ successRate r = (inject_Z (Z.of_nat count) / 1000) * 100
       /\ 0 <= successRate r /\ successRate r <= 100.
Proof.
  intros Hy.
  destruct (runSimulation_returns rng p Hy) as (r & dl & Hr & _ & _ & Hsr & _).
  exists r. split; [exact Hr|]. intros start count.
  assert (Hc : (count <= SIMULATIONS)%nat).
  { subst count. rewrite <- (simulateAll_length rng p). apply filter_length_le. }
  assert (E : successRate r = successRateOf count).
  { rewrite Hsr. f_equal. symmetry. apply filter_length_perm. apply jsSort_perm. }
  split; [intros run; apply isSuccess_iff|].
  split; [exact Hc|]. split; [exact E|].
  rewrite E. apply successRateOf_bounds. exact Hc.
Qed.

Lemma successRate_is_percentage_witness :
  exists r : AggregateResult,
    runSimulation zeroSource horizonZeroParams = Ok r
    /\ 0 <= successRate r /\ successRate r <= 100.
Proof.
  destruct (successRate_is_percentage zeroSource horizonZeroParams)
    as (r & Hr & _ & _ & _ & Hlo & Hhi).
  - cbn. lia.
  - exists r. split; [exact Hr | split; assumption].
Defined.

(** C1 as stated fails: with a horizon of one recorded year every one of
    the 1000 trajectories ends at its initial net worth, and [successRate]
    is 100, which is neither the count divided by 1000 nor at most 1. *)
Lemma successRate_fraction_counterexample :
  exists r : AggregateResult,
    runSimulation zeroSource horizonZeroParams = Ok r
    /\ let count :=
         length (filter (isSuccess (startTotalNetWorth horizonZeroParams))
                        (simulateAll zeroSource horizonZeroParams)) in
       count = 1000%nat
       /\ successRate r == 100
       /\ ~ successRate r == inject_Z (Z.of_nat count) / 1000
       /\ ~ successRate r <= 1.
Proof.
  eexists. split.
  - rewrite horizonZeroParams_run. unfold horizonZeroOutcome. reflexivity.
  - intros count. cbn [successRate].
    assert (Hc : count = 1000%nat) by (vm_compute; reflexivity).
    rewrite Hc. repeat split.
    + vm_compute. discriminate.
    + vm_compute. intros H. apply H. reflexivity.
Qed.

(** ** SpendingPolicy and the period step respect [==] *)

Lemma ledgerEq_refl (b : Ledger) : ledgerEq b b.
Proof. repeat split; reflexivity. Qed.

Lemma ledgerTotal_wd (b b' : Ledger) :
  ledgerEq b b' -> ledgerTotal b == ledgerTotal b'.
Proof. intros (Et & Ep & Er). unfold ledgerTotal. lra. Qed.

Lemma actualPortfolioWithdrawal_wd (p : SimulationParameters) (age : Z) (g g' : Q) :
  g == g' ->
  actualPortfolioWithdrawal p age g == actualPortfolioWithdrawal p age g'.
Proof.
  intros Eg. unfold actualPortfolioWithdrawal.
  destruct (Qmin_cases (portfolioNeed p age - g) (maxCutAmount p)) as [[? E] | [? E]];
    destruct (Qmin_cases (portfolioNeed p age - g') (maxCutAmount p))
      as [[? E'] | [? E']];
    qcmp; try rewrite E; try rewrite E'; lra.
Qed.

Lemma depositSurplus_wd (w w' : Q) (b b' : Ledger) :
  w == w' -> ledgerEq b b' -> ledgerEq (depositSurplus w b) (depositSurplus w' b').
Proof.
  intros Ew (Et & Ep & Er). unfold depositSurplus, ledgerEq.
  cbn [bTaxable bPreTax bRoth]. rewrite Ew, Et. repeat split; assumption.
Qed.

Lemma decumulate_wd (p : SimulationParameters) (age : Z) (s s' : Q) (b b' : Ledger) :
  s == s' -> ledgerEq b b' ->
  ledgerEq (decumulate p age s b) (decumulate p age s' b').
Proof.
  intros Es Eb. unfold decumulate.
  assert (Ew : actualPortfolioWithdrawal p age (ledgerTotal b - s)
               == actualPortfolioWithdrawal p age (ledgerTotal b' - s')).
  { apply actualPortfolioWithdrawal_wd. rewrite (ledgerTotal_wd b b' Eb), Es.
    reflexivity. }
  set (w := actualPortfolioWithdrawal p age (ledgerTotal b - s)) in *.
  set (w' := actualPortfolioWithdrawal p age (ledgerTotal b' - s')) in *.
  destruct (Qltb_spec w 0), (Qltb_spec w' 0); try lra.
  - apply depositSurplus_wd; assumption.
  - apply withdraw_wd; assumption.
Qed.

Lemma applyContributions_wd (p : SimulationParameters) (b b' : Ledger) :
  ledgerEq b b' -> ledgerEq (applyContributions p b) (applyContributions p b').
Proof.
  intros (Et & Ep & Er). unfold applyContributions, ledgerEq.
  cbn [bTaxable bPreTax bRoth]. repeat split; lra.
Qed.

Lemma cashflow_wd (p : SimulationParameters) (year : Z) (s s' : Q) (b b' : Ledger) :
  s == s' -> ledgerEq b b' ->
  ledgerEq (cashflow p year s b) (cashflow p year s' b').
Proof.
  intros Es Eb. unfold cashflow.
  destruct (year >? 0)%Z; [|exact Eb].
  destruct (currentAge p + year >=? retirementAge p)%Z; cbn [negb].
  - apply decumulate_wd; assumption.
  - apply applyContributions_wd; assumption.
Qed.

Lemma applyGrowth_wd (r r' : Q) (b b' : Ledger) :
  r == r' -> ledgerEq b b' -> ledgerEq (applyGrowth r b) (applyGrowth r' b').
Proof.
  intros Er (Et & Ep & Eo). unfold applyGrowth, ledgerEq.
  cbn [bTaxable bPreTax bRoth]. rewrite Er, Et, Ep, Eo.
  repeat split; reflexivity.
Qed.

Lemma floorAtZero_wd (b b' : Ledger) :
  ledgerEq b b' -> ledgerEq (floorAtZero b) (floorAtZero b').
Proof.
  intros (Et & Ep & Er). unfold floorAtZero, ledgerEq.
  cbn [bTaxable bPreTax bRoth]. repeat split; qcmp; lra.
Qed.

Lemma periodStep_wd (p : SimulationParameters) (year : Z) (r r' : Q) (b b' : Ledger) :
  r == r' -> ledgerEq b b' ->
  ledgerEq (periodStep p year r b) (periodStep p year r' b').
Proof.
  intros Er Eb. unfold periodStep.
  apply floorAtZero_wd. apply cashflow_wd.
  - apply ledgerTotal_wd. exact Eb.
  - destruct (year >? 0)%Z; [apply applyGrowth_wd|]; assumption.
Qed.

(** ** Zero volatility *)

Lemma generateGaussian_zero_volatility (p : SimulationParameters) (z : Q) :
  volatility p == 0 ->
  generateGaussian z (expectedReturn p / 100) (volatility p / 100)
    == expectedReturn p / 100.
Proof.
  intros Hv. unfold generateGaussian. rewrite Hv.
  setoid_replace (0 / 100) with 0 by reflexivity. ring.
Qed.

Lemma yearStep_zero_volatility (p : SimulationParameters) (year : Z) (z z' : Q)
    (b b' : Ledger) :
  volatility p == 0 -> ledgerEq b b' ->
  ledgerEq (yearStep p year z b) (yearStep p year z' b').
Proof.
  intros Hv Eb. unfold yearStep. apply periodStep_wd; [|exact Eb].
  rewrite !generateGaussian_zero_volatility by exact Hv. reflexivity.
Qed.

Lemma record_wd (r r' : Run) (b b' : Ledger) :
  runEq r r' -> ledgerEq b b' -> runEq (record r b) (record r' b').
Proof.
  intros (Ht & Hp & Hr & Hs) Eb.
  pose proof (ledgerTotal_wd b b' Eb) as Etot. destruct Eb as (Bt & Bp & Br).
  unfold runEq, record. cbn [taxable pretax roth total].
  repeat split; apply Forall2_app; try assumption;
    constructor; try constructor; assumption.
Qed.

Lemma yearLoop_zero_volatility (rng rng' : RandomSource) (p : SimulationParameters) :
  volatility p == 0 ->
  forall (n : nat) (year : Z) (calls calls' : nat) (b b' : Ledger) (r r' : Run),
    ledgerEq b b' -> runEq r r' ->
    runEq (fst (yearLoop rng p n year calls b r))
          (fst (yearLoop rng' p n year calls' b' r')).
Proof.
  intros Hv. induction n as [|n IH]; intros year calls calls' b b' r r' Eb Er;
    cbn [yearLoop].
  - exact Er.
  - apply IH.
    + apply yearStep_zero_volatility; assumption.
    + apply record_wd; [exact Er|]. apply yearStep_zero_volatility; assumption.
Qed.

Lemma simulatePath_zero_volatility (rng rng' : RandomSource)
    (p : SimulationParameters) (calls calls' : nat) :
  volatility p == 0 ->
  runEq (fst (simulatePath rng p calls)) (fst (simulatePath rng' p calls')).
Proof.
  intros Hv. unfold simulatePath. apply yearLoop_zero_volatility.
  - exact Hv.
  - apply ledgerEq_refl.
  - repeat split; constructor.
Qed.

Lemma Forall2_Qeq_nth (l l' : list Q) (i : nat) :
  Forall2 Qeq l l' -> nth i l 0 == nth i l' 0.
Proof.
  intros H. revert i. induction H as [|x y l l' Hxy _ IH]; intros [|i]; cbn [nth];
    try reflexivity; [exact Hxy | apply IH].
Qed.

Lemma Forall2_Qeq_lastOpt (l l' : list Q) :
  Forall2 Qeq l l' ->
  match lastOpt l, lastOpt l' with
  | Some x, Some y => x == y
  | None, None => True
  | _, _ => False
  end.
Proof.
  intros H. pose proof (Forall2_length H) as Hlen.
  destruct H as [|x y l l' Hxy H]; [exact I|].
  pose proof (Forall2_Qeq_nth (x :: l) (y :: l') (length (x :: l) - 1)
                (Forall2_cons _ _ Hxy H)) as Hn.
  destruct (lastOpt_Some (x :: l)) as (a & Ea & Na); [discriminate|].
  destruct (lastOpt_Some (y :: l')) as (b & Eb & Nb); [discriminate|].
  rewrite Ea, Eb. rewrite <- Hlen in Nb.
  rewrite (nth_error_nth _ _ 0 Na), (nth_error_nth _ _ 0 Nb) in Hn. exact Hn.
Qed.

Lemma isSuccess_wd (start : Q) (r r' : Run) :
  runEq r r' -> isSuccess start r = isSuccess start r'.
Proof.
  intros (_ & _ & _ & Ht). apply Forall2_Qeq_lastOpt in Ht. unfold isSuccess.
  destruct (lastOpt (total r)) as [x|], (lastOpt (total r')) as [y|];
    try contradiction; [|reflexivity].
  destruct (Qgeb_spec x start), (Qgeb_spec y start); try reflexivity; lra.
Qed.

Lemma filter_all {A : Type} (f : A -> bool) (l : list A) :
  Forall (fun x => f x = true) l -> length (filter f l) = length l.
Proof.
  induction 1 as [|x l Hx _ IH]; cbn [filter length]; [reflexivity|].
  rewrite Hx. cbn [length]. congruence.
Qed.

Lemma filter_none {A : Type} (f : A -> bool) (l : list A) :
  Forall (fun x => f x = false) l -> length (filter f l) = 0%nat.
Proof.
  induction 1 as [|x l Hx _ IH]; cbn [filter length]; [reflexivity|].
  rewrite Hx. exact IH.
Qed.

Lemma nth_all_eq (v : Q) (l : list Q) (k : nat) :
  Forall (fun x => x == v) l -> (k < length l)%nat -> nth k l 0 == v.
Proof.
  intros H Hk. rewrite Forall_forall in H. apply H. apply nth_In. exact Hk.
Qed.

Lemma simulateAll_paths (rng : RandomSource) (p : SimulationParameters) :
  Forall (fun r => exists calls, r = fst (simulatePath rng p calls))
         (simulateAll rng p).
Proof. apply simulateAll_Forall. intros calls. exists calls. reflexivity. Qed.

(** C9: with [volatility = 0] every sampled return is the mean return
    whatever the deviate drawn (the mean handed to [generateGaussian] is
    [expectedReturn / 100], the parameter being held as a percentage), the
    1000 trajectories are equal entry by entry and do not depend on the
    random source, [p20 = p50 = p80] at every age, and either all paths
    succeed and [successRate] is 100 or all fail and it is 0. *)
Theorem zero_volatility_degenerate (rng : RandomSource) (p : SimulationParameters) :
  volatility p == 0 -> (0 <= yearsToSimulate p)%Z ->
  (forall z : Q,
      generateGaussian z (expectedReturn p / 100) (volatility p / 100)
        == expectedReturn p / 100)
  /\ (forall (rng' : RandomSource) (run1 run2 : Run),
         In run1 (simulateAll rng p) -> In run2 (simulateAll rng' p) ->
         runEq run1 run2)
  /\ exists r : AggregateResult,
       runSimulation rng p = Ok r
       /\ Forall (fun d => p20 d == p50 d /\ p50 d == p80 d) (probabilityData r)
       /\ ((Forall (fun run => isSuccess (startTotalNetWorth p) run = true)
                   (simulateAll rng p)
            /\ successRate r == 100)
           \/ (Forall (fun run => isSuccess (startTotalNetWorth p) run = false)
                      (simulateAll rng p)
               /\ successRate r == 0)).
Proof.
  intros Hv Hy.
  pose proof (simulateAll_paths rng p) as Hpaths.
  assert (Hall : forall (rng' : RandomSource) (run1 run2 : Run),
             In run1 (simulateAll rng p) -> In run2 (simulateAll rng' p) ->
             runEq run1 run2).
  { rewrite Forall_forall in Hpaths. intros rng' run1 run2 H1 H2.
    pose proof (simulateAll_paths rng' p) as Hpaths'.
    rewrite Forall_forall in Hpaths'.
    destruct (Hpaths _ H1) as [c1 ->]. destruct (Hpaths' _ H2) as [c2 ->].
    apply simulatePath_zero_volatility. exact Hv. }
  split; [intros z; apply generateGaussian_zero_volatility; exact Hv|].
  split; [exact Hall|].
  destruct (runSimulation_returns rng p Hy) as (r & dl & Hr & Hpd & _ & Hsr & _).
  exists r. split; [exact Hr|].
  set (ref := fst (simulatePath rng p 0)).
  assert (Href : Forall (runEq ref) (simulateAll rng p)).
  { apply simulateAll_Forall. intros calls.
    apply simulatePath_zero_volatility. exact Hv. }
  split.
  - rewrite Hpd. apply Forall_forall. intros d Hd.
    apply In_nth_error in Hd. destruct Hd as [i Hd].
    apply forUpTo_inv in Hd. destruct Hd as [_ ->].
    unfold probabilityEntry. cbn [p20 p50 p80].
    set (ys := yearValues (simulateAll rng p) i).
    assert (Hys : Forall (fun x => x == nth i (total ref) 0) ys).
    { eapply Permutation_Forall; [apply jsSort_perm|].
      unfold totalsAt. apply Forall_map.
      eapply Forall_impl; [|exact Href]. intros run (_ & _ & _ & Ht). cbn beta.
      symmetry. apply Forall2_Qeq_nth. exact Ht. }
    assert (Hlen : length ys = 1000%nat).
    { subst ys. unfold yearValues. rewrite jsSort_length. unfold totalsAt.
      rewrite length_map. apply simulateAll_length. }
    rewrite rank_20, rank_50, rank_80.
    rewrite !(nth_all_eq _ ys _ Hys) by (rewrite Hlen; lia).
    split; reflexivity.
  - assert (E : successRate r
                = successRateOf (length (filter (isSuccess (startTotalNetWorth p))
                                                (simulateAll rng p)))).
    { rewrite Hsr. f_equal. symmetry. apply filter_length_perm. apply jsSort_perm. }
    destruct (isSuccess (startTotalNetWorth p) ref) eqn:Es; [left | right].
    + assert (Hf : Forall (fun run => isSuccess (startTotalNetWorth p) run = true)
                          (simulateAll rng p)).
      { eapply Forall_impl; [|exact Href]. intros run Hrun. cbn beta.
        rewrite <- (isSuccess_wd _ ref run Hrun). exact Es. }
      split; [exact Hf|].
      rewrite E, (filter_all _ _ Hf), simulateAll_length. reflexivity.
    + assert (Hf : Forall (fun run => isSuccess (startTotalNetWorth p) run = false)
                          (simulateAll rng p)).
      { eapply Forall_impl; [|exact Href]. intros run Hrun. cbn beta.
        rewrite <- (isSuccess_wd _ ref run Hrun). exact Es. }
      split; [exact Hf|].
      rewrite E, (filter_none _ _ Hf). reflexivity.
Qed.

Lemma zero_volatility_degenerate_witness :
  exists r : AggregateResult,
    runSimulation rampSource zeroVolatilityParams = Ok r
    /\ Forall (fun d => p20 d == p50 d /\ p50 d == p80 d) (probabilityData r).
Proof.
  destruct (zero_volatility_degenerate rampSource zeroVolatilityParams)
    as (_ & _ & r & Hr & Hpd & _).
  - reflexivity.
  - cbn. lia.
  - exists r. split; [exact Hr | exact Hpd].
Defined.

(** ** Parameters outside the invariants of the data model *)

Lemma paramsValid_ages (p : SimulationParameters) :
  paramsValid p = true ->
  (currentAge p < retirementAge p < lifeExpectancy p)%Z.
Proof.
  unfold paramsValid. intros H.
  repeat match goal with
         | H : _ && _ = true |- _ => apply andb_true_iff in H; destruct H
         end.
  split; apply Z.ltb_lt; assumption.
Qed.


(** C8 as stated fails: [horizonZeroParams] breaks the age ordering
    ([lifeExpectancy = currentAge < retirementAge], a horizon of 0), yet the
    callback returns an ordinary result computed on that horizon, one entry
    long and open-ended at 35; no parameter set that satisfies the
    invariants gives this result, so the ages were not clamped into order,
    and nothing was signalled. *)
Lemma entry_validation_counterexample :
  paramsValid horizonZeroParams = false
  /\ (lifeExpectancy horizonZeroParams <= currentAge horizonZeroParams)%Z
  /\ (exists r : AggregateResult,
         runSimulation zeroSource horizonZeroParams = Ok r
         /\ length (probabilityData r) = 1%nat
         /\ survivalAge r = OpenEnded 35)
  /\ forall p' : SimulationParameters,
       paramsValid p' = true ->
       runSimulation zeroSource p' <> runSimulation zeroSource horizonZeroParams.
Proof.
  split; [reflexivity|]. split; [cbn; lia|]. split.
  - eexists. split.
    + rewrite horizonZeroParams_run. unfold horizonZeroOutcome. reflexivity.
    + split; reflexivity.
  - intros p' Hv Heq. apply paramsValid_ages in Hv.
    destruct (runSimulation_returns zeroSource p') as (r & dl & Hr & Hpd & _).
    { unfold yearsToSimulate. lia. }
    rewrite Hr, horizonZeroParams_run in Heq. unfold horizonZeroOutcome in Heq.
    injection Heq as Heq. apply (f_equal (fun x => length (probabilityData x))) in Heq.
    rewrite Hpd, forUpTo_length in Heq. cbn in Heq.
    unfold yearsToSimulate in Heq. lia.
Qed.

(** * Further properties of the engine *)

(** ** The ordered withdrawal *)

Lemma Qdiv_mult_cancel (n d : Q) : 0 < d -> n / d * d == n.
Proof. intros Hd. field. lra. Qed.

Lemma Qdiv_pos (n d : Q) : 0 < d -> 0 < n -> 0 < n / d.
Proof. intros Hd Hn. apply Qlt_shift_div_l; [exact Hd | lra]. Qed.

(** What one gross-up stage does to an account that is not overdrawn. *)
Ltac stage_close :=
  repeat split; intros; try reflexivity; try lra;
  try match goal with
      | H : ~ ?x == ?x |- _ => exfalso; apply H; reflexivity
      end.

Lemma grossUpStage_facts (d bal need : Q) :
  0 < d -> 0 <= bal ->
  let bal' := fst (grossUpStage d bal need) in
  let rem := snd (grossUpStage d bal need) in
  (0 <= bal' /\ bal' <= bal)
  /\ (need <= 0 -> grossUpStage d bal need = (bal, need))
  /\ (0 <= need -> 0 <= rem /\ rem <= need)
  /\ need - rem == (bal - bal') * d
  /\ (0 < rem -> bal' == 0)
  /\ (~ bal' == bal -> 0 < need).
Proof.
  intros Hd Hbal. unfold grossUpStage.
  destruct (Qgtb_spec need 0) as [Hn | Hn]; cbn [andb];
    [|cbn [fst snd]; stage_close].
  destruct (Qgtb_spec bal 0) as [Hb | Hb]; [|cbn [fst snd]; stage_close].
  pose proof (Qdiv_mult_cancel need d Hd) as Hg.
  pose proof (Qdiv_pos need d Hd Hn) as Hgpos.
  set (g := need / d) in *.
  destruct (Qgeb_spec bal g) as [Hc | Hc]; cbn [fst snd].
  - stage_close.
  - assert (Hlt : bal * d < need).
    { rewrite <- Hg. apply Qmult_lt_compat_r; [exact Hd | lra]. }
    assert (Hnn : 0 <= bal * d) by (apply Qmult_le_0_compat; lra).
    stage_close.
Qed.

Lemma withdrawRoth_facts (bal need : Q) :
  0 <= bal ->
  let bal' := fst (withdrawRoth bal need) in
  let rem := snd (withdrawRoth bal need) in
  (0 <= bal' /\ bal' <= bal)
  /\ (need <= 0 -> withdrawRoth bal need = (bal, need))
  /\ (0 <= need -> 0 <= rem /\ rem <= need)
  /\ need - rem == bal - bal'
  /\ (0 < rem -> bal' == 0)
  /\ (~ bal' == bal -> 0 < need).
Proof.
  intros Hbal. unfold withdrawRoth.
  destruct (Qgtb_spec need 0) as [Hn | Hn]; cbn [andb];
    [|cbn [fst snd]; stage_close].
  destruct (Qgtb_spec bal 0) as [Hb | Hb]; [|cbn [fst snd]; stage_close].
  destruct (Qgeb_spec bal need) as [Hc | Hc]; cbn [fst snd]; stage_close.
Qed.

Lemma taxableDivisor_pos (p : SimulationParameters) : 0 < taxableDivisor p.
Proof. apply clampDivisor_pos. Qed.

Lemma preTaxDivisor_pos (p : SimulationParameters) : 0 < preTaxDivisor p.
Proof. apply clampDivisor_pos. Qed.

(** The three stages of [withdraw], named. *)
Lemma withdraw_stages (p : SimulationParameters) (need : Q) (b : Ledger) :
  exists t n1 q n2 r n3 : Q,
    grossUpStage (taxableDivisor p) (bTaxable b) need = (t, n1)
    /\ grossUpStage (preTaxDivisor p) (bPreTax b) n1 = (q, n2)
    /\ withdrawRoth (bRoth b) n2 = (r, n3)
    /\ withdraw p need b = (mkLedger t q r, n3).
Proof.
  unfold withdraw, withdrawTaxable, withdrawPreTax.
  destruct (grossUpStage (taxableDivisor p) (bTaxable b) need) as [t n1] eqn:E1.
  destruct (grossUpStage (preTaxDivisor p) (bPreTax b) n1) as [q n2] eqn:E2.
  destruct (withdrawRoth (bRoth b) n2) as [r n3] eqn:E3.
  exists t, n1, q, n2, r, n3. rewrite E2, E3. repeat split; reflexivity.
Qed.

Ltac withdraw_facts p need b Hb :=
  let t := fresh "t" in let n1 := fresh "n1" in
  let q := fresh "q" in let n2 := fresh "n2" in
  let r := fresh "r" in let n3 := fresh "n3" in
  let E1 := fresh "E1" in let E2 := fresh "E2" in
  let E3 := fresh "E3" in let E := fresh "E" in
  let F1 := fresh "F1" in let F2 := fresh "F2" in let F3 := fresh "F3" in
  destruct (withdraw_stages p need b) as (t & n1 & q & n2 & r & n3 & E1 & E2 & E3 & E);
  destruct Hb as (?Ht & ?Hp & ?Hr);
  pose proof (grossUpStage_facts (taxableDivisor p) (bTaxable b) need
                (taxableDivisor_pos p) ltac:(assumption)) as F1;
  pose proof (grossUpStage_facts (preTaxDivisor p) (bPreTax b) n1
                (preTaxDivisor_pos p) ltac:(assumption)) as F2;
  pose proof (withdrawRoth_facts (bRoth b) n2 ltac:(assumption)) as F3;
  cbv zeta in F1, F2, F3; rewrite E1 in F1; rewrite E2 in F2; rewrite E3 in F3;
  cbn [fst snd] in F1, F2, F3; rewrite E; cbn [fst snd bTaxable bPreTax bRoth];
  destruct F1 as ((?A1 & ?A2) & ?A3 & ?A4 & ?A5 & ?A6 & ?A7);
  destruct F2 as ((?B1 & ?B2) & ?B3 & ?B4 & ?B5 & ?B6 & ?B7);
  destruct F3 as ((?C1 & ?C2) & ?C3 & ?C4 & ?C5 & ?C6 & ?C7).

Lemma withdraw_bounds (p : SimulationParameters) (need : Q) (b : Ledger) :
  ledgerNonneg b ->
  let b' := fst (withdraw p need b) in
  let rem := snd (withdraw p need b) in
  ledgerNonneg b'
  /\ bTaxable b' <= bTaxable b /\ bPreTax b' <= bPreTax b /\ bRoth b' <= bRoth b
  /\ (0 <= need -> 0 <= rem /\ rem <= need)
  /\ (need <= 0 -> b' = b /\ rem = need).
Proof.
  intros Hb b' rem. subst b' rem. pose proof Hb as Hb0.
  withdraw_facts p need b Hb.
  split; [repeat split; assumption|].
  split; [assumption|]. split; [assumption|]. split; [assumption|]. split.
  - intros Hn. destruct (A4 Hn) as [X1 X2]. destruct (B4 X1) as [Y1 Y2].
    destruct (C4 Y1) as [Z1 Z2]. split; lra.
  - intros Hn. specialize (A3 Hn). injection A3 as -> ->.
    specialize (B3 Hn). injection B3 as -> ->.
    specialize (C3 Hn). injection C3 as -> ->.
    destruct b; split; reflexivity.
Qed.

Lemma grossUpStage_conserves (d bal need : Q) :
  0 < d ->
  need - snd (grossUpStage d bal need) == (bal - fst (grossUpStage d bal need)) * d.
Proof.
  intros Hd. unfold grossUpStage.
  destruct (Qgtb_spec need 0) as [Hn | Hn]; cbn [andb]; [|cbn [fst snd]; lra].
  destruct (Qgtb_spec bal 0) as [Hb | Hb]; [|cbn [fst snd]; lra].
  pose proof (Qdiv_mult_cancel need d Hd) as Hg.
  set (g := need / d) in *.
  destruct (Qgeb_spec bal g) as [Hc | Hc]; cbn [fst snd]; lra.
Qed.

Lemma withdrawRoth_conserves (bal need : Q) :
  need - snd (withdrawRoth bal need) == bal - fst (withdrawRoth bal need).
Proof.
  unfold withdrawRoth.
  destruct (Qgtb_spec need 0) as [Hn | Hn]; cbn [andb]; [|cbn [fst snd]; lra].
  destruct (Qgtb_spec bal 0) as [Hb | Hb]; [|cbn [fst snd]; lra].
  destruct (Qgeb_spec bal need) as [Hc | Hc]; cbn [fst snd]; lra.
Qed.

Lemma withdraw_conservation (p : SimulationParameters) (need : Q) (b : Ledger) :
  let b' := fst (withdraw p need b) in
  let rem := snd (withdraw p need b) in
  need - rem ==
    (bTaxable b - bTaxable b') * taxableDivisor p
    + (bPreTax b - bPreTax b') * preTaxDivisor p
    + (bRoth b - bRoth b').
Proof.
  intros b' rem. subst b' rem.
  destruct (withdraw_stages p need b)
    as (t & n1 & q & n2 & r & n3 & E1 & E2 & E3 & E).
  pose proof (grossUpStage_conserves (taxableDivisor p) (bTaxable b) need
                (taxableDivisor_pos p)) as F1.
  pose proof (grossUpStage_conserves (preTaxDivisor p) (bPreTax b) n1
                (preTaxDivisor_pos p)) as F2.
  pose proof (withdrawRoth_conserves (bRoth b) n2) as F3.
  rewrite E1 in F1. rewrite E2 in F2. rewrite E3 in F3. rewrite E.
  cbn [fst snd bTaxable bPreTax bRoth] in *. lra.
Qed.

Lemma withdraw_ordering (p : SimulationParameters) (need : Q) (b : Ledger) :
  ledgerNonneg b ->
  let b' := fst (withdraw p need b) in
  let rem := snd (withdraw p need b) in
  (~ bPreTax b' == bPreTax b -> bTaxable b' == 0)
  /\ (~ bRoth b' == bRoth b -> bTaxable b' == 0 /\ bPreTax b' == 0)
  /\ (0 < rem -> bTaxable b' == 0 /\ bPreTax b' == 0 /\ bRoth b' == 0).
Proof.
  intros Hb b' rem. subst b' rem.
  withdraw_facts p need b Hb.
  assert (K2 : 0 < n2 -> 0 < n1).
  { intros H. apply Qnot_le_lt. intros Hle. specialize (B3 Hle).
    injection B3 as _ ->. lra. }
  assert (K3 : 0 < n3 -> 0 < n2).
  { intros H. apply Qnot_le_lt. intros Hle. specialize (C3 Hle).
    injection C3 as _ ->. lra. }
  split; [|split].
  - intros H. apply A6. apply B7. exact H.
  - intros H. pose proof (C7 H) as H2. split; [apply A6; apply K2 | apply B6];
      exact H2.
  - intros H. pose proof (K3 H) as H2. repeat split.
    + apply A6. apply K2. exact H2.
    + apply B6. exact H2.
    + apply C6. exact H.
Qed.

(** X1: on a ledger without negative balances the ordered withdrawal never
    overdraws and never adds: each balance ends between 0 and its value
    before; the need left unmet lies between 0 and the need asked for; a
    need that is not positive changes nothing. *)
Theorem withdraw_within_balances (p : SimulationParameters) (need : Q) (b : Ledger) :
  ledgerNonneg b ->
  let b' := fst (withdraw p need b) in
  let rem := snd (withdraw p need b) in
  ledgerNonneg b'
  /\ bTaxable b' <= bTaxable b /\ bPreTax b' <= bPreTax b /\ bRoth b' <= bRoth b
  /\ (0 <= need -> 0 <= rem /\ rem <= need)
  /\ (need <= 0 -> b' = b /\ rem = need).
Proof. exact (withdraw_bounds p need b). Qed.

Lemma withdraw_within_balances_witness :
  let b := mkLedger 5000 40000 10000 in
  bPreTax (fst (withdraw defaultParams 10000 b)) <= 40000.
Proof.
  intros b.
  refine (proj1 (proj2 (proj2 (withdraw_within_balances defaultParams 10000 b _)))).
  repeat split; vm_compute; discriminate.
Defined.

(** X2: the ordered withdrawal accounts for every dollar: the need that was
    met, [need - rem], is the after-tax value of what left the accounts, the
    gross amount taken from each account times its tax factor (1 for the
    roth account). *)
Theorem withdraw_conserves_net_value (p : SimulationParameters) (need : Q)
    (b : Ledger) :
  let b' := fst (withdraw p need b) in
  let rem := snd (withdraw p need b) in
  need - rem ==
    (bTaxable b - bTaxable b') * taxableDivisor p
    + (bPreTax b - bPreTax b') * preTaxDivisor p
    + (bRoth b - bRoth b').
Proof. exact (withdraw_conservation p need b). Qed.

(** X3: the order taxable, pre-tax, roth is strict: the pre-tax balance
    changes only when the taxable account ends empty, the roth balance only
    when the taxable and pre-tax accounts both end empty, and a need is left
    unmet only when all three end empty. *)
Theorem withdraw_order_strict (p : SimulationParameters) (need : Q) (b : Ledger) :
  ledgerNonneg b ->
  let b' := fst (withdraw p need b) in
  let rem := snd (withdraw p need b) in
  (~ bPreTax b' == bPreTax b -> bTaxable b' == 0)
  /\ (~ bRoth b' == bRoth b -> bTaxable b' == 0 /\ bPreTax b' == 0)
  /\ (0 < rem -> bTaxable b' == 0 /\ bPreTax b' == 0 /\ bRoth b' == 0).
Proof. exact (withdraw_ordering p need b). Qed.

Lemma withdraw_order_strict_witness :
  let b := mkLedger 5000 40000 10000 in
  ~ bPreTax (fst (withdraw defaultParams 10000 b)) == 40000
  /\ bTaxable (fst (withdraw defaultParams 10000 b)) == 0.
Proof.
  intros b.
  assert (H : ~ bPreTax (fst (withdraw defaultParams 10000 b)) == bPreTax b)
    by (vm_compute; discriminate).
  split; [exact H|].
  refine (proj1 (withdraw_order_strict defaultParams 10000 b _) H).
  repeat split; vm_compute; discriminate.
Defined.

(** X4: spending is under-funded only by an exhausted portfolio.  For a need
    that is not negative: if the after-tax value of the ledger covers the
    need, nothing is left unmet; otherwise the three accounts end empty and
    the unmet part is the need less that value. *)
Theorem withdraw_covers_when_funded (p : SimulationParameters) (need : Q)
    (b : Ledger) :
  ledgerNonneg b -> 0 <= need ->
  let b' := fst (withdraw p need b) in
  let rem := snd (withdraw p need b) in
  (need <= afterTaxValue p b -> rem == 0)
  /\ (afterTaxValue p b < need ->
      bTaxable b' == 0 /\ bPreTax b' == 0 /\ bRoth b' == 0
      /\ rem == need - afterTaxValue p b).
Proof.
  intros Hb Hneed b' rem.
  pose proof (withdraw_bounds p need b Hb) as (Hnn & Lt & Lp & Lr & Hrem & _).
  pose proof (withdraw_conservation p need b) as Hcons.
  pose proof (withdraw_ordering p need b Hb) as (_ & _ & Hex).
  cbv zeta in Hcons, Hex, Hrem. fold b' rem in Hnn, Lt, Lp, Lr, Hrem, Hcons, Hex.
  destruct (Hrem Hneed) as [Hr0 Hr1]. destruct Hnn as (Nt & Np & Nr).
  pose proof (taxableDivisor_pos p) as Dt. pose proof (preTaxDivisor_pos p) as Dp.
  unfold afterTaxValue.
  assert (Pt : 0 <= bTaxable b' * taxableDivisor p)
    by (apply Qmult_le_0_compat; lra).
  assert (Pp : 0 <= bPreTax b' * preTaxDivisor p)
    by (apply Qmult_le_0_compat; lra).
  assert (Hzero : 0 < rem ->
                  bTaxable b' == 0 /\ bPreTax b' == 0 /\ bRoth b' == 0
                  /\ rem == need - (bTaxable b * taxableDivisor p
                                    + bPreTax b * preTaxDivisor p + bRoth b)).
  { intros H. destruct (Hex H) as (Zt & Zp & Zr). repeat split; try assumption.
    rewrite Zt, Zp, Zr in Hcons. lra. }
  split.
  - intros Hv. destruct (Qlt_le_dec 0 rem) as [Hpos | Hle]; [|lra].
    destruct (Hzero Hpos) as (_ & _ & _ & Er). lra.
  - intros Hv. apply Hzero. lra.
Qed.

Lemma withdraw_covers_when_funded_witness :
  snd (withdraw defaultParams 10000 (mkLedger 5000 40000 10000)) == 0
  /\ snd (withdraw defaultParams 10000 (mkLedger 1000 1000 1000)) ==
       10000 - afterTaxValue defaultParams (mkLedger 1000 1000 1000).
Proof.
  split.
  - refine (proj1 (withdraw_covers_when_funded defaultParams 10000
                     (mkLedger 5000 40000 10000) _ _) _);
      try (repeat split; vm_compute; discriminate).
  - refine (proj2 (proj2 (proj2 (proj2
      (withdraw_covers_when_funded defaultParams 10000
         (mkLedger 1000 1000 1000) _ _) _))));
      repeat split; vm_compute; (discriminate || reflexivity).
Defined.

(** ** Spending policy against the displayed range *)

Lemma Qmax_cases (x y : Q) :
  (x <= y /\ Qmax x y == y) \/ (y <= x /\ Qmax x y == x).
Proof.
  destruct (Q.max_spec x y) as [[H E] | [H E]]; [left | right]; split;
    try assumption; lra.
Qed.

Lemma floorSpending_eq (p : SimulationParameters) :
  floorSpending p == targetSpending p - maxCutAmount p.
Proof. unfold floorSpending, targetSpending, maxCutAmount. div100. ring. Qed.

Lemma actualPortfolioWithdrawal_range (p : SimulationParameters) (age : Z)
    (gain : Q) :
  0 <= maxCutAmount p ->
  portfolioNeed p age - maxCutAmount p <= actualPortfolioWithdrawal p age gain
  /\ actualPortfolioWithdrawal p age gain <= portfolioNeed p age.
Proof.
  intros Hcut. unfold actualPortfolioWithdrawal.
  destruct (Qmin_cases (portfolioNeed p age - gain) (maxCutAmount p))
    as [[Hm E] | [Hm E]];
    qcmp; try rewrite E; split; lra.
Qed.

(** X5: the withdrawal decided for a retired year always funds a spend
    within the displayed "Target Spend" range: with fixed income added back
    it lies between [floorSpending] and [targetSpending], provided the
    cuttable amount [discretionarySpending * spendingCutFlexibility / 100]
    is not negative.  Once fixed income has started, the amount drawn from
    the portfolio lies within the displayed "Net Portfolio Need" range. *)
Theorem spending_within_displayed_range (p : SimulationParameters) (age : Z)
    (gain : Q) :
  0 <= discretionarySpending p * (spendingCutFlexibility p / 100) ->
  let w := actualPortfolioWithdrawal p age gain in
  floorSpending p <= w + currentFixedIncome p age
  /\ w + currentFixedIncome p age <= targetSpending p
  /\ ((fixedIncomeStartAge p <= age)%Z ->
      netPortfolioNeedLow p <= Qmax 0 w /\ Qmax 0 w <= netPortfolioNeedHigh p).
Proof.
  intros Hcut w.
  pose proof (actualPortfolioWithdrawal_range p age gain Hcut) as [Hlo Hhi].
  fold w in Hlo, Hhi. pose proof (floorSpending_eq p) as Ef.
  unfold portfolioNeed, baseTarget in Hlo, Hhi.
  unfold targetSpending in Ef.
  split; [lra|]. split; [unfold targetSpending; lra|].
  intros Hage. unfold netPortfolioNeedLow, netPortfolioNeedHigh.
  fold (targetSpending p) in Ef.
  assert (Efix : currentFixedIncome p age = fixedIncomeAnnual p).
  { unfold currentFixedIncome.
    destruct (Z.geb_spec age (fixedIncomeStartAge p)); [reflexivity | lia]. }
  rewrite Efix in Hlo, Hhi.
  destruct (Qmax_cases 0 w) as [[? E1] | [? E1]];
    destruct (Qmax_cases 0 (floorSpending p - fixedIncomeAnnual p)) as [[? E2] | [? E2]];
    destruct (Qmax_cases 0 (targetSpending p - fixedIncomeAnnual p)) as [[? E3] | [? E3]];
    rewrite E1, E2, E3; unfold targetSpending in *; split; lra.
Qed.

Lemma spending_within_displayed_range_witness :
  let w := actualPortfolioWithdrawal overCutParams 70 (-20000) in
  floorSpending overCutParams <= w + currentFixedIncome overCutParams 70
  /\ Qmax 0 w <= netPortfolioNeedHigh overCutParams.
Proof.
  intros w.
  destruct (spending_within_displayed_range overCutParams 70%Z (-20000))
    as (H1 & _ & H3).
  - vm_compute. discriminate.
  - split; [exact H1|]. apply H3. cbn. lia.
Defined.

(** X6: essential spending is never cut: when the discretionary amount is
    not negative and the cut flexibility is within [0, 100], the withdrawal
    decided for a retired year plus the fixed income of that year is at
    least [minSpending]. *)
Theorem essentials_never_cut (p : SimulationParameters) (age : Z) (gain : Q) :
  0 <= discretionarySpending p ->
  0 <= spendingCutFlexibility p -> spendingCutFlexibility p <= 100 ->
  minSpending p
    <= actualPortfolioWithdrawal p age gain + currentFixedIncome p age.
Proof.
  intros Hd Hf0 Hf1.
  assert (Hcut : 0 <= maxCutAmount p).
  { unfold maxCutAmount. apply Qmult_le_0_compat; [exact Hd|]. div100. lra. }
  pose proof (actualPortfolioWithdrawal_range p age gain Hcut) as [Hlo _].
  assert (Hkeep : 0 <= discretionarySpending p * (1 - spendingCutFlexibility p / 100)).
  { apply Qmult_le_0_compat; [exact Hd|]. div100. lra. }
  unfold portfolioNeed, baseTarget, maxCutAmount in Hlo.
  revert Hlo Hkeep. div100. intros Hlo Hkeep. lra.
Qed.

Lemma essentials_never_cut_witness :
  minSpending defaultParams
    <= actualPortfolioWithdrawal defaultParams 70 (-50000)
       + currentFixedIncome defaultParams 70.
Proof.
  apply (essentials_never_cut defaultParams 70%Z (-50000));
    vm_compute; discriminate.
Defined.

(** ** Tax factors *)

Lemma clampDivisor_le_1 (x : Q) : x <= 1 -> clampDivisor x <= 1.
Proof. intros H. unfold clampDivisor. qcmp; lra. Qed.

(** X7: tax never adds money.  With the income tax rate and the capital
    gains inclusion not negative, both tax factors lie in (0, 1], and on a
    ledger without negative balances the amount debited from the three
    accounts is at least the net need that was met. *)
Theorem withdraw_debits_at_least_net (p : SimulationParameters) (need : Q)
    (b : Ledger) :
  0 <= incomeTaxRate p -> 0 <= capitalGainsInclusion p -> ledgerNonneg b ->
  let b' := fst (withdraw p need b) in
  let rem := snd (withdraw p need b) in
  (0 < taxableDivisor p /\ taxableDivisor p <= 1)
  /\ (0 < preTaxDivisor p /\ preTaxDivisor p <= 1)
  /\ need - rem
     <= (bTaxable b - bTaxable b') + (bPreTax b - bPreTax b') + (bRoth b - bRoth b').
Proof.
  intros Ht Hi Hb b' rem.
  assert (Dt : taxableDivisor p <= 1).
  { apply clampDivisor_le_1.
    assert (0 <= capitalGainsInclusion p / 100 * (incomeTaxRate p / 100)).
    { apply Qmult_le_0_compat; div100; lra. }
    lra. }
  assert (Dp : preTaxDivisor p <= 1).
  { apply clampDivisor_le_1. div100. lra. }
  split; [split; [apply taxableDivisor_pos | exact Dt]|].
  split; [split; [apply preTaxDivisor_pos | exact Dp]|].
  pose proof (withdraw_conservation p need b) as Hc.
  pose proof (withdraw_bounds p need b Hb) as (_ & Lt & Lp & _).
  cbv zeta in Hc. fold b' rem in Hc, Lt, Lp.
  assert (Pt : 0 <= (bTaxable b - bTaxable b') * (1 - taxableDivisor p))
    by (apply Qmult_le_0_compat; lra).
  assert (Pp : 0 <= (bPreTax b - bPreTax b') * (1 - preTaxDivisor p))
    by (apply Qmult_le_0_compat; lra).
  lra.
Qed.

Lemma withdraw_debits_at_least_net_witness :
  let b := mkLedger 5000 40000 10000 in
  taxableDivisor defaultParams <= 1
  /\ 10000 - snd (withdraw defaultParams 10000 b)
     <= (5000 - bTaxable (fst (withdraw defaultParams 10000 b)))
        + (40000 - bPreTax (fst (withdraw defaultParams 10000 b)))
        + (10000 - bRoth (fst (withdraw defaultParams 10000 b))).
Proof.
  intros b.
  destruct (withdraw_debits_at_least_net defaultParams 10000 b)
    as ((_ & H1) & _ & H3);
    [vm_compute; discriminate | vm_compute; discriminate
     | repeat split; vm_compute; discriminate |].
  split; [exact H1 | exact H3].
Defined.

(** ** The floor *)

Lemma floorAtZero_id (b : Ledger) : ledgerNonneg b -> floorAtZero b = b.
Proof.
  intros (Ht & Hp & Hr). destruct b as [t q r]. unfold floorAtZero.
  cbn [bTaxable bPreTax bRoth] in *.
  destruct (Qltb_spec t 0); [lra|].
  destruct (Qltb_spec q 0); [lra|].
  destruct (Qltb_spec r 0); [lra|]. reflexivity.
Qed.

Lemma applyGrowth_nonneg (r : Q) (b : Ledger) :
  -1 <= r -> ledgerNonneg b -> ledgerNonneg (applyGrowth r b).
Proof.
  intros Hr (Ht & Hp & Ho). unfold applyGrowth, ledgerNonneg.
  cbn [bTaxable bPreTax bRoth].
  repeat split; apply Qmult_le_0_compat; lra.
Qed.

Lemma cashflow_nonneg (p : SimulationParameters) (year : Z) (s : Q) (b : Ledger) :
  0 <= taxableContribution p -> 0 <= preTaxContribution p ->
  0 <= rothContribution p ->
  ledgerNonneg b -> ledgerNonneg (cashflow p year s b).
Proof.
  intros Ct Cp Cr Hb. unfold cashflow.
  destruct (year >? 0)%Z; [|exact Hb].
  destruct (currentAge p + year >=? retirementAge p)%Z; cbn [negb].
  - unfold decumulate.
    destruct (Qltb_spec (actualPortfolioWithdrawal p (currentAge p + year)
                           (ledgerTotal b - s)) 0).
    + destruct Hb as (Ht & Hp & Hr). unfold depositSurplus, ledgerNonneg.
      cbn [bTaxable bPreTax bRoth].
      pose proof (Qabs_nonneg (actualPortfolioWithdrawal p (currentAge p + year)
                                 (ledgerTotal b - s))).
      repeat split; lra.
    + apply (withdraw_bounds p _ b Hb).
  - destruct Hb as (Ht & Hp & Hr). unfold applyContributions, ledgerNonneg.
    cbn [bTaxable bPreTax bRoth]. repeat split; lra.
Qed.

(** X8: the floor at zero acts only on a return below -100%.  When the
    contributions are not negative, the ledger has no negative balance and
    the sampled return is at least -1, growth and cash flow leave no account
    negative, and the period step is the cash flow applied to the grown
    ledger, unfloored. *)
Theorem floor_inert_above_total_loss (p : SimulationParameters) (year : Z)
    (realReturn : Q) (b : Ledger) :
  0 <= taxableContribution p -> 0 <= preTaxContribution p ->
  0 <= rothContribution p ->
  ledgerNonneg b -> -1 <= realReturn ->
  periodStep p year realReturn b
  = cashflow p year (ledgerTotal b)
      (if (year >? 0)%Z then applyGrowth realReturn b else b).
Proof.
  intros Ct Cp Cr Hb Hr. unfold periodStep. apply floorAtZero_id.
  apply cashflow_nonneg; try assumption.
  destruct (year >? 0)%Z; [apply applyGrowth_nonneg|]; assumption.
Qed.

Lemma floor_inert_above_total_loss_witness :
  let b := mkLedger 50000 40000 10000 in
  periodStep defaultParams 40 (-1 # 2) b
  = cashflow defaultParams 40 (ledgerTotal b) (applyGrowth (-1 # 2) b).
Proof.
  intros b.
  apply (floor_inert_above_total_loss defaultParams 40%Z (-1 # 2) b);
    try (repeat split; vm_compute; discriminate).
Defined.

(** ** Trajectories as sequences of ledgers *)

Lemma yearLoop_ledgers (rng : RandomSource) (p : SimulationParameters) (n : nat) :
  forall (year : Z) (calls : nat) (b : Ledger) (r : Run),
    yearLoop rng p n year calls b r
    = (mkRun (taxable r ++ map bTaxable (ledgerLoop rng p n year calls b))
             (pretax r ++ map bPreTax (ledgerLoop rng p n year calls b))
             (roth r ++ map bRoth (ledgerLoop rng p n year calls b))
             (total r ++ map ledgerTotal (ledgerLoop rng p n year calls b)),
       (calls + n)%nat).
Proof.
  induction n as [|n IH]; intros year calls b r; cbn [yearLoop ledgerLoop map].
  - rewrite !app_nil_r, Nat.add_0_r. destruct r; reflexivity.
  - rewrite IH. unfold record. cbn [taxable pretax roth total].
    rewrite <- !app_assoc. cbn [app]. f_equal. lia.
Qed.

Lemma simulatePath_runOf (rng : RandomSource) (p : SimulationParameters)
    (calls : nat) :
  simulatePath rng p calls
  = (runOf (ledgerPath rng p calls), (calls + iterations p)%nat).
Proof. unfold simulatePath. rewrite yearLoop_ledgers. reflexivity. Qed.

Lemma ledgerLoop_length (rng : RandomSource) (p : SimulationParameters) (n : nat) :
  forall (year : Z) (calls : nat) (b : Ledger),
    length (ledgerLoop rng p n year calls b) = n.
Proof.
  induction n as [|n IH]; intros year calls b; cbn [ledgerLoop length];
    [reflexivity | rewrite IH; reflexivity].
Qed.

Lemma ledgerLoop_nonneg (rng : RandomSource) (p : SimulationParameters) (n : nat) :
  forall (year : Z) (calls : nat) (b : Ledger),
    Forall ledgerNonneg (ledgerLoop rng p n year calls b).
Proof.
  induction n as [|n IH]; intros year calls b; cbn [ledgerLoop]; constructor.
  - apply yearStep_nonneg.
  - apply IH.
Qed.

Lemma simLoop_runs (rng : RandomSource) (p : SimulationParameters) (m : nat) :
  forall (calls : nat) (acc : list Run),
    simLoop rng p m calls acc
    = acc ++ map (fun k => runOf (ledgerPath rng p (calls + k * iterations p)))
                 (seq 0 m).
Proof.
  induction m as [|m IH]; intros calls acc; cbn [simLoop].
  - cbn [seq map]. rewrite app_nil_r. reflexivity.
  - rewrite simulatePath_runOf, IH. rewrite <- app_assoc. f_equal.
    cbn [seq map app]. f_equal; [f_equal; f_equal; lia|].
    rewrite <- seq_shift, map_map. apply map_ext. intros k.
    f_equal. f_equal. lia.
Qed.

Lemma simulateAll_nth (rng : RandomSource) (p : SimulationParameters) (k : nat) :
  (k < SIMULATIONS)%nat ->
  nth_error (simulateAll rng p) k
  = Some (runOf (ledgerPath rng p (k * iterations p))).
Proof.
  intros Hk. unfold simulateAll. rewrite simLoop_runs. cbn [app].
  rewrite nth_error_map, nth_error_seq.
  destruct (Nat.ltb_spec k SIMULATIONS); [reflexivity | lia].
Qed.

Lemma simulateAll_runOf (rng : RandomSource) (p : SimulationParameters) :
  Forall (fun run => exists calls, run = runOf (ledgerPath rng p calls))
         (simulateAll rng p).
Proof.
  eapply Forall_impl; [|apply simulateAll_paths].
  intros run [c ->]. exists c. rewrite simulatePath_runOf. reflexivity.
Qed.

(** X9: every trajectory records one ledger per age: its four arrays have
    an entry at the same indices, and at each index the recorded total is
    exactly the sum of the recorded taxable, pre-tax and roth balances. *)
Theorem recorded_total_is_sum (rng : RandomSource) (p : SimulationParameters) :
  Forall (fun run =>
            forall (i : nat) (x : Q),
              nth_error (total run) i = Some x ->
              exists t q r : Q,
                nth_error (taxable run) i = Some t
                /\ nth_error (pretax run) i = Some q
                /\ nth_error (roth run) i = Some r
                /\ x = t + q + r)
         (simulateAll rng p).
Proof.
  eapply Forall_impl; [|apply simulateAll_runOf].
  intros run [c ->] i x Hx. unfold runOf in *. cbn [taxable pretax roth total] in *.
  rewrite nth_error_map in Hx. rewrite !nth_error_map.
  destruct (nth_error (ledgerPath rng p c) i) as [b|]; [|discriminate].
  cbn [option_map] in *. injection Hx as <-.
  exists (bTaxable b), (bPreTax b), (bRoth b). repeat split; reflexivity.
Qed.

(** ** Use of the random source *)

Lemma yearStep_year0 (p : SimulationParameters) (year : Z) (z : Q) (b : Ledger) :
  (year <= 0)%Z -> yearStep p year z b = floorAtZero b.
Proof.
  intros Hy. unfold yearStep, periodStep, cashflow.
  destruct (Z.gtb_spec year 0); [lia | reflexivity].
Qed.

Lemma ledgerLoop_ext (rng rng' : RandomSource) (p : SimulationParameters) (n : nat) :
  forall (year : Z) (calls : nat) (b : Ledger),
    (forall j : nat,
        (j < n)%nat -> (0 < year + Z.of_nat j)%Z ->
        rng (calls + j)%nat = rng' (calls + j)%nat) ->
    ledgerLoop rng p n year calls b = ledgerLoop rng' p n year calls b.
Proof.
  induction n as [|n IH]; intros year calls b H; cbn [ledgerLoop]; [reflexivity|].
  assert (E : yearStep p year (rng calls) b = yearStep p year (rng' calls) b).
  { destruct (Z_lt_le_dec 0 year) as [Hpos | Hle].
    - specialize (H 0%nat). rewrite Nat.add_0_r in H. rewrite H; [reflexivity|lia|lia].
    - rewrite !yearStep_year0 by exact Hle. reflexivity. }
  rewrite E. f_equal. apply IH. intros j Hj Hy.
  replace (S calls + j)%nat with (calls + S j)%nat by lia.
  apply H; lia.
Qed.

(** X10: the paths are independent and the draw made at year 0 is
    discarded: run number [k] (from 0) is decided by the parameters and by
    the draws number [k * n + 1] to [k * n + n - 1], where
    [n = yearsToSimulate + 1]; two sources that agree on those draws give
    the same run [k]. *)
Theorem run_depends_on_own_draws (rng rng' : RandomSource)
    (p : SimulationParameters) (k : nat) :
  (k < 1000)%nat ->
  (forall j : nat,
      (1 <= j < iterations p)%nat ->
      rng (k * iterations p + j)%nat = rng' (k * iterations p + j)%nat) ->
  exists run : Run,
    nth_error (simulateAll rng p) k = Some run
    /\ nth_error (simulateAll rng' p) k = Some run.
Proof.
  intros Hk H. exists (runOf (ledgerPath rng p (k * iterations p))).
  rewrite !simulateAll_nth by exact Hk. split; [reflexivity|].
  unfold ledgerPath. f_equal. f_equal. symmetry. apply ledgerLoop_ext.
  intros j Hj Hy. apply H. lia.
Qed.

Lemma run_depends_on_own_draws_witness :
  exists run : Run,
    nth_error (simulateAll zeroSource defaultParams) 7 = Some run
    /\ nth_error (simulateAll (fun c => if (c mod 56 =? 0)%nat then 1 else 0)
                              defaultParams) 7 = Some run.
Proof.
  apply (run_depends_on_own_draws zeroSource
           (fun c => if (c mod 56 =? 0)%nat then 1 else 0) defaultParams 7).
  - lia.
  - intros j Hj. change (iterations defaultParams) with 56%nat in *.
    unfold zeroSource.
    replace ((7 * 56 + j) mod 56)%nat with j.
    + destruct (Nat.eqb_spec j 0); [lia | reflexivity].
    + rewrite Nat.add_comm, Nat.Div0.mod_add. symmetry. apply Nat.mod_small. lia.
Defined.

(** ** The snapshot of year 0 *)

Lemma ledgerPath_head (rng : RandomSource) (p : SimulationParameters) (calls : nat) :
  (0 <= yearsToSimulate p)%Z ->
  nth_error (ledgerPath rng p calls) 0 = Some (floorAtZero (initialLedger p)).
Proof.
  intros Hy. unfold ledgerPath.
  destruct (iterations p) as [|n] eqn:E; [unfold iterations in E; lia|].
  cbn [ledgerLoop nth_error]. rewrite yearStep_year0 by lia. reflexivity.
Qed.

Lemma nth_all_same (v : Q) (l : list Q) (k : nat) :
  Forall (eq v) l -> (k < length l)%nat -> nth k l 0 = v.
Proof.
  intros H Hk. rewrite Forall_forall in H. symmetry. apply H.
  apply nth_In. exact Hk.
Qed.

Lemma nth_error_nth0 (l : list Q) (i : nat) (x : Q) :
  nth_error l i = Some x -> nth i l 0 = x.
Proof. intros H. apply nth_error_nth. exact H. Qed.

Lemma jsSort_in {A : Type} (cmp : A -> A -> Q) (l : list A) (x : A) :
  In x (jsSort cmp l) -> In x l.
Proof.
  intros H. eapply Permutation_in; [|exact H].
  apply Permutation_sym. apply jsSort_perm.
Qed.

Lemma medianRun_exists (rng : RandomSource) (p : SimulationParameters) :
  exists run : Run,
    nth_error (jsSort compareFinal (simulateAll rng p)) (rank 0.5) = Some run
    /\ In run (simulateAll rng p)
    /\ medianDataOf p (jsSort compareFinal (simulateAll rng p))
       = Ok (forUpTo (yearsToSimulate p) (medianEntry p run)).
Proof.
  destruct (nth_error (jsSort compareFinal (simulateAll rng p)) (rank 0.5))
    as [run|] eqn:E.
  - exists run. split; [reflexivity|]. split.
    + apply (jsSort_in compareFinal). eapply nth_error_In. exact E.
    + unfold medianDataOf. rewrite E. reflexivity.
  - apply nth_error_None in E.
    rewrite jsSort_length, simulateAll_length, rank_50 in E.
    unfold SIMULATIONS in E. lia.
Qed.

Lemma year_zero_snapshot (rng : RandomSource) (p : SimulationParameters) :
  (0 <= yearsToSimulate p)%Z ->
  exists (r : AggregateResult) (d0 : ProbabilityEntry) (m0 : MedianEntry),
    runSimulation rng p = Ok r
    /\ nth_error (probabilityData r) 0 = Some d0
    /\ nth_error (medianData r) 0 = Some m0
    /\ let start := floorAtZero (initialLedger p) in
       pd_age d0 = currentAge p
       /\ p20 d0 = ledgerTotal start /\ p50 d0 = ledgerTotal start
       /\ p80 d0 = ledgerTotal start
       /\ md_age m0 = currentAge p
       /\ md_taxable m0 = bTaxable start /\ md_pretax m0 = bPreTax start
       /\ md_roth m0 = bRoth start /\ md_total m0 = ledgerTotal start
       /\ (ledgerNonneg (initialLedger p) ->
           ledgerTotal start
           = taxableBalance p + preTaxBalance p + rothBalance p).
Proof.
  intros Hy.
  destruct (runSimulation_returns rng p Hy) as (r & dl & Hr & Hpd & Hmd & _).
  destruct (medianRun_exists rng p) as (mrun & _ & Hin & Emd).
  rewrite Emd in Hmd. injection Hmd as Hmd.
  assert (Hpos : (0 < Z.to_nat (yearsToSimulate p + 1))%nat) by lia.
  set (start := floorAtZero (initialLedger p)).
  assert (Hheads : Forall (fun run =>
                    nth_error (taxable run) 0 = Some (bTaxable start)
                    /\ nth_error (pretax run) 0 = Some (bPreTax start)
                    /\ nth_error (roth run) 0 = Some (bRoth start)
                    /\ nth_error (total run) 0 = Some (ledgerTotal start))
                  (simulateAll rng p)).
  { eapply Forall_impl; [|apply simulateAll_runOf]. intros run [c ->].
    unfold runOf. cbn [taxable pretax roth total]. rewrite !nth_error_map.
    rewrite (ledgerPath_head rng p c Hy). repeat split; reflexivity. }
  exists r, (probabilityEntry p (simulateAll rng p) 0),
    (medianEntry p mrun 0).
  split; [exact Hr|]. split; [rewrite Hpd; apply forUpTo_nth_error; exact Hpos|].
  split; [rewrite <- Hmd; apply forUpTo_nth_error; exact Hpos|].
  cbv zeta. fold start.
  assert (Hys : Forall (eq (ledgerTotal start)) (yearValues (simulateAll rng p) 0)).
  { eapply Permutation_Forall; [apply jsSort_perm|].
    unfold totalsAt. apply Forall_map.
    eapply Forall_impl; [|exact Hheads]. intros run (_ & _ & _ & Ht). cbn beta.
    symmetry. apply nth_error_nth0. exact Ht. }
  assert (Hlen : length (yearValues (simulateAll rng p) 0) = 1000%nat).
  { unfold yearValues. rewrite jsSort_length. unfold totalsAt.
    rewrite length_map. apply simulateAll_length. }
  rewrite Forall_forall in Hheads. destruct (Hheads _ Hin) as (Mt & Mp & Mr & Ms).
  unfold probabilityEntry, medianEntry.
  cbn [pd_age p20 p50 p80 md_age md_taxable md_pretax md_roth md_total].
  rewrite rank_20, rank_50, rank_80.
  rewrite !(nth_all_same _ _ _ Hys) by (rewrite Hlen; lia).
  rewrite (nth_error_nth0 _ _ _ Mt), (nth_error_nth0 _ _ _ Mp),
    (nth_error_nth0 _ _ _ Mr), (nth_error_nth0 _ _ _ Ms).
  repeat split; try reflexivity; try (cbn [Z.of_nat]; lia).
  intros Hnn. subst start. rewrite (floorAtZero_id _ Hnn). reflexivity.
Qed.

(** X11: year 0 is a snapshot taken before any return or cash flow: when
    the horizon is not negative, the first entry of [probabilityData] is at
    [currentAge] and its three percentiles are all the total of the starting
    balances floored at zero, and the first entry of [medianData] holds
    those floored balances.  With starting balances that are not negative
    the three percentiles are the initial net worth. *)
Theorem year_zero_is_initial_snapshot (rng : RandomSource) (p : SimulationParameters) :
  (0 <= yearsToSimulate p)%Z ->
  exists (r : AggregateResult) (d0 : ProbabilityEntry) (m0 : MedianEntry),
    runSimulation rng p = Ok r
    /\ nth_error (probabilityData r) 0 = Some d0
    /\ nth_error (medianData r) 0 = Some m0
    /\ let start := floorAtZero (initialLedger p) in
       pd_age d0 = currentAge p
       /\ p20 d0 = ledgerTotal start /\ p50 d0 = ledgerTotal start
       /\ p80 d0 = ledgerTotal start
       /\ md_age m0 = currentAge p
       /\ md_taxable m0 = bTaxable start /\ md_pretax m0 = bPreTax start
       /\ md_roth m0 = bRoth start /\ md_total m0 = ledgerTotal start
       /\ (ledgerNonneg (initialLedger p) ->
           ledgerTotal start
           = taxableBalance p + preTaxBalance p + rothBalance p).
Proof. exact (year_zero_snapshot rng p). Qed.

Lemma year_zero_is_initial_snapshot_witness :
  exists (r : AggregateResult) (d0 : ProbabilityEntry),
    runSimulation rampSource defaultParams = Ok r
    /\ nth_error (probabilityData r) 0 = Some d0
    /\ p50 d0 = ledgerTotal (floorAtZero (initialLedger defaultParams)).
Proof.
  destruct (year_zero_is_initial_snapshot rampSource defaultParams)
    as (r & d0 & m0 & Hr & Hd & _ & _ & _ & H50 & _).
  - cbn. lia.
  - exists r, d0. split; [exact Hr | split; [exact Hd | exact H50]].
Defined.

(** ** The representative run *)

Lemma insertBy_map_key {A : Type} (cmp : A -> A -> Q) (key : A -> Q) (x : A)
    (l : list A) :
  (forall y, In y l -> cmp x y = key x - key y) ->
  map key (insertBy cmp x l) = insertBy (fun a b => a - b) (key x) (map key l).
Proof.
  induction l as [|y ys IH]; intros H; cbn [insertBy map]; [reflexivity|].
  rewrite (H y (or_introl eq_refl)).
  destruct (Qleb (key x - key y) 0); cbn [map]; [reflexivity|].
  f_equal. apply IH. intros z Hz. apply H. right. exact Hz.
Qed.

Lemma jsSort_map_key {A : Type} (cmp : A -> A -> Q) (key : A -> Q) (l : list A) :
  (forall x y, In x l -> In y l -> cmp x y = key x - key y) ->
  map key (jsSort cmp l) = jsSort (fun a b => a - b) (map key l).
Proof.
  induction l as [|x xs IH]; intros H; cbn [jsSort fold_right map]; [reflexivity|].
  fold (jsSort cmp xs). fold (jsSort (fun a b => a - b) (map key xs)).
  rewrite <- IH.
  - apply insertBy_map_key. intros y Hy. apply H; [left; reflexivity|].
    right. apply (jsSort_in cmp). exact Hy.
  - intros a b Ha Hb. apply H; right; assumption.
Qed.

Lemma lastOpt_full (l : list Q) (n : nat) :
  length l = S n -> lastOpt l = Some (nth n l 0).
Proof.
  intros Hlen. destruct (lastOpt_Some l) as (x & Ex & Nx).
  { intros ->. discriminate. }
  rewrite Ex. f_equal. rewrite Hlen in Nx. cbn [Nat.sub] in Nx.
  rewrite Nat.sub_0_r in Nx. symmetry. apply nth_error_nth0. exact Nx.
Qed.

(** X12: [medianData] is the trajectory of one of the 1000 generated runs,
    entry by entry, with ages counted from [currentAge] to [lifeExpectancy]
    and each total the sum of its three balances; and at the final age the
    two medians agree: the last total of [medianData] is [medianEndWealth],
    the 50th percentile of the final totals. *)
Theorem medianData_is_one_run (rng : RandomSource) (p : SimulationParameters) :
  (0 <= yearsToSimulate p)%Z ->
  exists (r : AggregateResult) (run : Run) (mlast : MedianEntry),
    runSimulation rng p = Ok r
    /\ In run (simulateAll rng p)
    /\ length (medianData r) = Z.to_nat (yearsToSimulate p + 1)
    /\ (forall (i : nat) (m : MedianEntry),
           nth_error (medianData r) i = Some m ->
           md_age m = (currentAge p + Z.of_nat i)%Z
           /\ nth_error (taxable run) i = Some (md_taxable m)
           /\ nth_error (pretax run) i = Some (md_pretax m)
           /\ nth_error (roth run) i = Some (md_roth m)
           /\ nth_error (total run) i = Some (md_total m)
           /\ md_total m = md_taxable m + md_pretax m + md_roth m)
    /\ lastOpt (medianData r) = Some mlast
    /\ md_age mlast = lifeExpectancy p
    /\ md_total mlast = medianEndWealth r.
Proof.
  intros Hy.
  destruct (runSimulation_returns rng p Hy)
    as (r & dl & Hr & Hpd & Hmd & _ & _ & Hdl & Hmew).
  destruct (medianRun_exists rng p) as (run & Hnth & Hin & Emd).
  rewrite Emd in Hmd. injection Hmd as Hmd.
  set (Y := Z.to_nat (yearsToSimulate p)).
  assert (HY : Z.to_nat (yearsToSimulate p + 1) = S Y) by (subst Y; lia).
  pose proof (simulateAll_runOf rng p) as Hruns. rewrite Forall_forall in Hruns.
  assert (Hlens : forall x, In x (simulateAll rng p) -> length (total x) = S Y).
  { intros x Hx. destruct (Hruns x Hx) as [c ->]. unfold runOf. cbn [total].
    rewrite length_map. unfold ledgerPath. rewrite ledgerLoop_length.
    exact HY. }
  set (key := fun x : Run => nth Y (total x) 0).
  assert (Hkey : map key (jsSort compareFinal (simulateAll rng p))
                 = yearValues (simulateAll rng p) Y).
  { apply jsSort_map_key. intros a b Ha Hb. unfold compareFinal.
    rewrite (lastOpt_full _ Y (Hlens a Ha)), (lastOpt_full _ Y (Hlens b Hb)).
    reflexivity. }
  exists r, run, (medianEntry p run Y).
  split; [exact Hr|]. split; [exact Hin|].
  split; [rewrite <- Hmd; apply forUpTo_length|]. split; [|split; [|split]].
  - intros i m Hm. rewrite <- Hmd in Hm. apply forUpTo_inv in Hm.
    destruct Hm as [Hi ->]. unfold medianEntry.
    cbn [md_age md_taxable md_pretax md_roth md_total].
    destruct (Hruns run Hin) as [c ->]. unfold runOf.
    cbn [taxable pretax roth total].
    assert (Hb : exists b, nth_error (ledgerPath rng p c) i = Some b).
    { destruct (nth_error (ledgerPath rng p c) i) as [b|] eqn:E;
        [exists b; reflexivity|].
      apply nth_error_None in E. unfold ledgerPath in E.
      rewrite ledgerLoop_length in E. unfold iterations in E. lia. }
    destruct Hb as [b Hb].
    assert (Hn : forall f : Ledger -> Q,
               nth_error (map f (ledgerPath rng p c)) i = Some (f b)).
    { intros f. rewrite nth_error_map, Hb. reflexivity. }
    rewrite !(nth_error_nth0 _ _ _ (Hn _)).
    repeat split; apply Hn.
  - destruct (lastOpt_Some (medianData r)) as (m & Em & Nm).
    { intros E. apply (f_equal (@length _)) in E. rewrite <- Hmd in E.
      rewrite forUpTo_length in E. cbn [length] in E. lia. }
    rewrite Em. f_equal. rewrite <- Hmd in Nm.
    rewrite forUpTo_length, HY in Nm. cbn [Nat.sub] in Nm.
    rewrite Nat.sub_0_r in Nm.
    rewrite forUpTo_nth_error in Nm by lia. congruence.
  - unfold medianEntry. cbn [md_age]. subst Y. unfold yearsToSimulate in *. lia.
  - rewrite Hmew.
    destruct (lastOpt_Some (probabilityData r)) as (d & Ed & Nd).
    { intros E. apply (f_equal (@length _)) in E. rewrite Hpd in E.
      rewrite forUpTo_length in E. cbn [length] in E. lia. }
    rewrite Hdl in Ed. injection Ed as <-.
    rewrite Hpd, forUpTo_length, HY in Nd. cbn [Nat.sub] in Nd.
    rewrite Nat.sub_0_r in Nd. rewrite forUpTo_nth_error in Nd by lia.
    injection Nd as <-. unfold probabilityEntry, medianEntry.
    cbn [p50 md_total]. rewrite <- Hkey.
    change (nth Y (total run) 0) with (key run).
    symmetry. apply nth_error_nth0. rewrite nth_error_map, Hnth. reflexivity.
Qed.

Lemma medianData_is_one_run_witness :
  exists (r : AggregateResult) (mlast : MedianEntry),
    runSimulation rampSource defaultParams = Ok r
    /\ lastOpt (medianData r) = Some mlast
    /\ md_total mlast = medianEndWealth r.
Proof.
  destruct (medianData_is_one_run rampSource defaultParams)
    as (r & run & mlast & Hr & _ & _ & _ & Hl & _ & He).
  - cbn. lia.
  - exists r, mlast. split; [exact Hr | split; [exact Hl | exact He]].
Defined.

(** ** Survival age, read backwards *)

Lemma survivalAgeOf_inv (p : SimulationParameters) (pd : list ProbabilityEntry)
    (sa : SurvivalAge) :
  survivalAgeOf p pd = Ok sa ->
  match sa with
  | AgeReached a =>
      exists (i : nat) (d : ProbabilityEntry),
        nth_error pd i = Some d /\ pd_age d = a /\ p20 d <= 0
        /\ forall (j : nat) (e : ProbabilityEntry),
             (j < i)%nat -> nth_error pd j = Some e -> 0 < p20 e
  | OpenEnded le => le = lifeExpectancy p /\ Forall (fun d => 0 < p20 d) pd
  end.
Proof.
  unfold survivalAgeOf.
  destruct (findIndex (fun d => Qleb (p20 d) 0) pd) as [k|] eqn:E.
  - destruct (findIndex_Some _ _ _ E) as [(x & Hx & Fx) Hlt].
    rewrite Hx. intros H. injection H as <-.
    exists k, x. split; [exact Hx|]. split; [reflexivity|].
    destruct (Qleb_spec (p20 x) 0) as [Hle|]; [|discriminate].
    split; [exact Hle|]. intros j e Hj He. specialize (Hlt j e Hj He).
    cbn beta in Hlt. destruct (Qleb_spec (p20 e) 0); [discriminate | lra].
  - intros H. injection H as <-. split; [reflexivity|].
    apply findIndex_None in E. eapply Forall_impl; [|exact E].
    intros d Hd. cbn beta in Hd.
    destruct (Qleb_spec (p20 d) 0); [discriminate | lra].
Qed.

Lemma nth_nonneg (l : list Q) (i : nat) : Forall (Qle 0) l -> 0 <= nth i l 0.
Proof.
  intros H. destruct (nth_in_or_default i l 0) as [Hin | ->]; [|lra].
  rewrite Forall_forall in H. apply H. exact Hin.
Qed.

Lemma yearValues_nonneg (rng : RandomSource) (p : SimulationParameters) (i : nat) :
  Forall (Qle 0) (yearValues (simulateAll rng p) i).
Proof.
  eapply Permutation_Forall; [apply jsSort_perm|].
  unfold totalsAt. apply Forall_map.
  eapply Forall_impl; [|apply (simulateAll_Forall runNonneg rng p
                                 (simulatePath_nonneg rng p))].
  intros run (_ & _ & _ & Ht). cbn beta. apply nth_nonneg. exact Ht.
Qed.

(** X13: what a reported [survivalAge] means.  A numeric survival age lies
    between [currentAge] and [lifeExpectancy], the 20th percentile at that
    age is exactly 0, and it is positive at every earlier age; the
    open-ended value carries [lifeExpectancy] and is reported only when the
    20th percentile is positive at every age.  No percentile is negative. *)
Theorem survivalAge_meaning (rng : RandomSource) (p : SimulationParameters) :
  (0 <= yearsToSimulate p)%Z ->
  exists r : AggregateResult,
    runSimulation rng p = Ok r
    /\ Forall (fun d => 0 <= p20 d /\ 0 <= p50 d /\ 0 <= p80 d) (probabilityData r)
    /\ match survivalAge r with
       | AgeReached a =>
           (currentAge p <= a <= lifeExpectancy p)%Z
           /\ exists (i : nat) (d : ProbabilityEntry),
                nth_error (probabilityData r) i = Some d
                /\ a = (currentAge p + Z.of_nat i)%Z /\ pd_age d = a
                /\ p20 d == 0
                /\ forall (j : nat) (e : ProbabilityEntry),
                     (j < i)%nat -> nth_error (probabilityData r) j = Some e ->
                     0 < p20 e
       | OpenEnded le =>
           le = lifeExpectancy p /\ Forall (fun d => 0 < p20 d) (probabilityData r)
       end.
Proof.
  intros Hy.
  destruct (runSimulation_returns rng p Hy) as (r & dl & Hr & Hpd & _ & _ & Hsa & _).
  exists r. split; [exact Hr|].
  assert (Hnn : Forall (fun d => 0 <= p20 d /\ 0 <= p50 d /\ 0 <= p80 d)
                       (probabilityData r)).
  { rewrite Hpd. unfold forUpTo. apply Forall_map. apply Forall_forall.
    intros i _. unfold probabilityEntry. cbn [p20 p50 p80].
    repeat split; apply nth_nonneg; apply yearValues_nonneg. }
  split; [exact Hnn|].
  apply survivalAgeOf_inv in Hsa. destruct (survivalAge r) as [a | le].
  - destruct Hsa as (i & d & Hd & Ha & Hle & Hbefore).
    pose proof Hd as Hd'. rewrite Hpd in Hd'. apply forUpTo_inv in Hd'.
    destruct Hd' as [Hi Ed].
    assert (Eage : pd_age d = (currentAge p + Z.of_nat i)%Z) by (rewrite Ed; reflexivity).
    split; [unfold yearsToSimulate in *; lia|].
    exists i, d. split; [exact Hd|]. split; [lia|]. split; [exact Ha|].
    split; [|exact Hbefore].
    rewrite Forall_forall in Hnn.
    destruct (Hnn d (nth_error_In _ _ Hd)) as [H0 _]. lra.
  - exact Hsa.
Qed.

Lemma survivalAge_meaning_witness :
  exists r : AggregateResult,
    runSimulation rampSource defaultParams = Ok r
    /\ Forall (fun d => 0 <= p20 d /\ 0 <= p50 d /\ 0 <= p80 d) (probabilityData r).
Proof.
  destruct (survivalAge_meaning rampSource defaultParams) as (r & Hr & Hnn & _).
  - cbn. lia.
  - exists r. split; [exact Hr | exact Hnn].
Defined.

(** ** Success rate at its ends *)

Lemma filter_length_full {A : Type} (f : A -> bool) (l : list A) :
  length (filter f l) = length l -> Forall (fun x => f x = true) l.
Proof.
  induction l as [|x l IH]; cbn [filter length]; intros H; [constructor|].
  pose proof (filter_length_le f l) as Hle.
  destruct (f x) eqn:Fx; cbn [length] in H.
  - constructor; [exact Fx | apply IH; lia].
  - lia.
Qed.

Lemma filter_length_zero {A : Type} (f : A -> bool) (l : list A) :
  length (filter f l) = 0%nat -> Forall (fun x => f x = false) l.
Proof.
  induction l as [|x l IH]; cbn [filter length]; intros H; [constructor|].
  destruct (f x) eqn:Fx; cbn [length] in H; [discriminate|].
  constructor; [exact Fx | apply IH; exact H].
Qed.

Lemma successRateOf_100 (count : nat) :
  successRateOf count == 100 <-> count = SIMULATIONS.
Proof.
  unfold successRateOf, Qdiv.
  change (/ inject_Z (Z.of_nat SIMULATIONS)) with (1 # 1000).
  split.
  - intros H. assert (E : inject_Z (Z.of_nat count) == inject_Z 1000).
    { change (inject_Z 1000) with 1000. revert H.
      generalize (inject_Z (Z.of_nat count)). intros c H. lra. }
    apply (proj1 (inject_Z_injective _ _)) in E. apply Nat2Z.inj. rewrite E.
    reflexivity.
  - intros ->. reflexivity.
Qed.

Lemma successRateOf_0 (count : nat) : successRateOf count == 0 <-> count = 0%nat.
Proof.
  unfold successRateOf, Qdiv.
  change (/ inject_Z (Z.of_nat SIMULATIONS)) with (1 # 1000).
  split.
  - intros H. assert (E : inject_Z (Z.of_nat count) == inject_Z 0).
    { change (inject_Z 0) with 0. revert H.
      generalize (inject_Z (Z.of_nat count)). intros c H. lra. }
    apply (proj1 (inject_Z_injective _ _)) in E. lia.
  - intros ->. reflexivity.
Qed.

(** X14: the ends of the success rate.  [successRate] is 100 exactly when
    every one of the 1000 trajectories ends at or above the initial net
    worth, and 0 exactly when none does. *)
Theorem successRate_extremes (rng : RandomSource) (p : SimulationParameters) :
  (0 <= yearsToSimulate p)%Z ->
  exists r : AggregateResult,
    runSimulation rng p = Ok r
    /\ (successRate r == 100 <->
        Forall (fun run => isSuccess (startTotalNetWorth p) run = true)
               (simulateAll rng p))
    /\ (successRate r == 0 <->
        Forall (fun run => isSuccess (startTotalNetWorth p) run = false)
               (simulateAll rng p)).
Proof.
  intros Hy.
  destruct (runSimulation_returns rng p Hy) as (r & dl & Hr & _ & _ & Hsr & _).
  exists r. split; [exact Hr|].
  assert (E : successRate r
              = successRateOf (length (filter (isSuccess (startTotalNetWorth p))
                                              (simulateAll rng p)))).
  { rewrite Hsr. f_equal. symmetry. apply filter_length_perm. apply jsSort_perm. }
  rewrite E. split.
  - rewrite successRateOf_100. rewrite <- (simulateAll_length rng p). split.
    + apply filter_length_full.
    + apply filter_all.
  - rewrite successRateOf_0. split.
    + apply filter_length_zero.
    + apply filter_none.
Qed.

Lemma successRate_extremes_witness :
  exists r : AggregateResult,
    runSimulation zeroSource horizonZeroParams = Ok r
    /\ Forall (fun run => isSuccess (startTotalNetWorth horizonZeroParams) run = true)
              (simulateAll zeroSource horizonZeroParams).
Proof.
  destruct (successRate_extremes zeroSource horizonZeroParams) as (r & Hr & H100 & _).
  - cbn. lia.
  - exists r. split; [exact Hr|]. apply H100.
    rewrite horizonZeroParams_run in Hr. injection Hr as <-. reflexivity.
Defined.

(** ** InputGroup *)

Lemma removeCommas_app (s1 s2 : String.string) :
  removeCommas (String.append s1 s2)
  = String.append (removeCommas s1) (removeCommas s2).
Proof.
  induction s1 as [|c s1 IH]; cbn [String.append removeCommas]; [reflexivity|].
  destruct (Ascii.eqb c comma); cbn [String.append]; rewrite IH; reflexivity.
Qed.

Lemma removeCommas_idem (s : String.string) :
  removeCommas (removeCommas s) = removeCommas s.
Proof.
  induction s as [|c s IH]; cbn [removeCommas]; [reflexivity|].
  destruct (Ascii.eqb c comma) eqn:E; [exact IH|].
  cbn [removeCommas]. rewrite E, IH. reflexivity.
Qed.

(** X15: the input handler ignores thousands separators wherever they
    stand: a comma inserted anywhere in the typed text does not change the
    call made to [onChange], and text that is already free of commas is read
    as it is. *)
Theorem handleChange_ignores_commas (num : Type) (Number : String.string -> num)
    (isNaN : num -> bool) (zero : num) (s1 s2 : String.string) :
  handleChange num Number isNaN zero
    (String.append s1 (String.String comma s2))
  = handleChange num Number isNaN zero (String.append s1 s2)
  /\ handleChange num Number isNaN zero (removeCommas s1)
     = handleChange num Number isNaN zero s1.
Proof.
  unfold handleChange. split.
  - rewrite !removeCommas_app. cbn [removeCommas].
    change (Ascii.eqb comma comma) with true. reflexivity.
  - rewrite removeCommas_idem. reflexivity.
Qed.

(** ** A portfolio that starts empty *)

(** X16: a household that starts with nothing is reported safe only until
    its current age, whatever it contributes afterwards: when no starting
    balance is positive, the 20th percentile of year 0 is 0 and
    [survivalAge] is [currentAge]. *)
Theorem empty_start_survives_to_currentAge
    (rng : RandomSource) (p : SimulationParameters) :
  (0 <= yearsToSimulate p)%Z ->
  taxableBalance p <= 0 -> preTaxBalance p <= 0 -> rothBalance p <= 0 ->
  exists r : AggregateResult,
    runSimulation rng p = Ok r /\ survivalAge r = AgeReached (currentAge p).
Proof.
  intros Hy Ht Hp Hr.
  destruct (year_zero_snapshot rng p Hy)
    as (r & d0 & m0 & Hrun & Hd0 & _ & Hage & H20 & _).
  exists r. split; [exact Hrun|].
  destruct (runSimulation_returns rng p Hy) as (r' & dl & Hrun' & _ & _ & _ & Hsa & _).
  rewrite Hrun in Hrun'. injection Hrun' as <-.
  assert (Hle : p20 d0 <= 0).
  { rewrite H20. unfold ledgerTotal, floorAtZero, initialLedger.
    cbn [bTaxable bPreTax bRoth]. qcmp; lra. }
  rewrite (survivalAgeOf_first p _ 0%nat d0 Hd0 Hle) in Hsa.
  - injection Hsa as <-. rewrite Hage. reflexivity.
  - intros j e Hj. lia.
Qed.

Lemma empty_start_survives_to_currentAge_witness :
  exists r : AggregateResult,
    runSimulation rampSource
      (mkParams 35 65 90 0 5000 0 10000 0 6000 40000 20000 50 0 65 4.5 15 30 50)
    = Ok r
    /\ survivalAge r = AgeReached 35.
Proof.
  apply (empty_start_survives_to_currentAge rampSource
           (mkParams 35 65 90 0 5000 0 10000 0 6000 40000 20000 50 0 65 4.5 15 30 50));
    [cbn; lia | | |]; vm_compute; discriminate.
Defined.

(** ** What the engine does with parameters outside their ranges *)

Lemma yearStep_sameEngine (p p' : SimulationParameters) :
  sameEngine p p' ->
  forall (year : Z) (z : Q) (b : Ledger), yearStep p year z b = yearStep p' year z b.
Proof.
  intros (H1 & H2 & H3 & H4 & H5 & H6 & H7 & H8 & H9 & H10 & H11 & H12 & H13
          & H14 & H15) year z b.
  unfold yearStep, periodStep, cashflow, applyContributions, decumulate,
    actualPortfolioWithdrawal, portfolioNeed, baseTarget, currentFixedIncome,
    maxCutAmount, withdraw, withdrawTaxable, withdrawPreTax.
  rewrite H1, H2, H4, H5, H6, H7, H8, H9, H10, H11, H12, H13, H14, H15.
  reflexivity.
Qed.

Lemma ledgerLoop_sameEngine (rng : RandomSource) (p p' : SimulationParameters) :
  sameEngine p p' ->
  forall (n : nat) (year : Z) (calls : nat) (b : Ledger),
    ledgerLoop rng p n year calls b = ledgerLoop rng p' n year calls b.
Proof.
  intros H. induction n as [|n IH]; intros year calls b; cbn [ledgerLoop];
    [reflexivity|].
  rewrite (yearStep_sameEngine p p' H), IH. reflexivity.
Qed.

Lemma iterations_sameEngine (p p' : SimulationParameters) :
  sameEngine p p' -> yearsToSimulate p = yearsToSimulate p'.
Proof.
  intros (H1 & _ & H3 & _). unfold yearsToSimulate. rewrite H1, H3. reflexivity.
Qed.

Lemma ledgerPath_sameEngine (rng : RandomSource) (p p' : SimulationParameters)
    (calls : nat) :
  sameEngine p p' ->
  floorAtZero (initialLedger p) = floorAtZero (initialLedger p') ->
  ledgerPath rng p calls = ledgerPath rng p' calls.
Proof.
  intros H Hfloor. unfold ledgerPath, iterations.
  rewrite <- (iterations_sameEngine p p' H).
  destruct (Z.to_nat (yearsToSimulate p + 1)) as [|n]; [reflexivity|].
  cbn [ledgerLoop]. rewrite !yearStep_year0 by lia. rewrite <- Hfloor.
  f_equal. apply ledgerLoop_sameEngine. exact H.
Qed.

Lemma simulateAll_sameEngine (rng : RandomSource) (p p' : SimulationParameters) :
  sameEngine p p' ->
  floorAtZero (initialLedger p) = floorAtZero (initialLedger p') ->
  simulateAll rng p = simulateAll rng p'.
Proof.
  intros H Hfloor. unfold simulateAll. rewrite !simLoop_runs. f_equal.
  apply map_ext. intros k. unfold iterations.
  rewrite <- (iterations_sameEngine p p' H).
  rewrite (ledgerPath_sameEngine rng p p' _ H Hfloor). reflexivity.
Qed.

Lemma runSimulation_sameEngine (rng : RandomSource) (p p' : SimulationParameters) :
  sameEngine p p' -> initialLedger p = initialLedger p' ->
  runSimulation rng p = runSimulation rng p'.
Proof.
  intros H Hinit.
  pose proof (simulateAll_sameEngine rng p p' H (f_equal floorAtZero Hinit)) as Eall.
  pose proof (iterations_sameEngine p p' H) as Ey.
  pose proof H as (H1 & _ & H3 & _).
  assert (Estart : startTotalNetWorth p = startTotalNetWorth p').
  { unfold initialLedger in Hinit. injection Hinit as Et Ep Er.
    unfold startTotalNetWorth. rewrite Et, Ep, Er. reflexivity. }
  assert (Epd : forall all,
             forUpTo (yearsToSimulate p) (probabilityEntry p all)
             = forUpTo (yearsToSimulate p') (probabilityEntry p' all)).
  { intros all. rewrite <- Ey. unfold forUpTo. apply map_ext. intros i.
    unfold probabilityEntry. rewrite H1. reflexivity. }
  assert (Emd : forall sorted, medianDataOf p sorted = medianDataOf p' sorted).
  { intros sorted. unfold medianDataOf, iterations. rewrite <- Ey.
    destruct (nth_error sorted (rank 0.5)) as [run|]; [|reflexivity].
    f_equal. unfold forUpTo. apply map_ext. intros i.
    unfold medianEntry. rewrite H1. reflexivity. }
  assert (Esa : forall pd, survivalAgeOf p pd = survivalAgeOf p' pd).
  { intros pd. unfold survivalAgeOf. rewrite H3. reflexivity. }
  unfold runSimulation. rewrite Eall, Epd, Emd, Estart, Esa. reflexivity.
Qed.

Lemma floorBalance_idem (x : Q) : floorBalance (floorBalance x) = floorBalance x.
Proof.
  unfold floorBalance. destruct (Qltb x 0) eqn:E; [reflexivity|].
  rewrite E. reflexivity.
Qed.

Lemma clampDivisor_clamped (x : Q) : x <= 0 -> clampDivisor x = 0.01.
Proof.
  intros H. unfold clampDivisor.
  destruct (Qleb_spec x 0); [reflexivity | contradiction].
Qed.

(** C8 (amended): within exact arithmetic and integer ages, the callback
    has no validation at its entry and signals nothing: whenever
    [lifeExpectancy >= currentAge] it returns a result, whether or not the
    parameters satisfy the invariants of the data model, over the horizon
    as given: [probabilityData], [medianData] and every trajectory have
    [lifeExpectancy - currentAge + 1] entries, with ages counted from
    [currentAge], and every recorded balance is non-negative.  It clamps
    defensively in two places, both inside the yearly step.  A tax factor
    that is [<= 0] is replaced by 0.01: rates with
    [1 - incomeTaxRate / 100 <= 0] and
    [1 - capitalGainsInclusion / 100 * (incomeTaxRate / 100) <= 0] give
    exactly the result of [incomeTaxRate = 100] with
    [capitalGainsInclusion = 100].  Balances are floored at zero before they
    are recorded: the trajectories are exactly those of the starting
    balances each floored at zero. *)
Theorem runSimulation_unvalidated (rng : RandomSource) (p : SimulationParameters) :
  ((0 <= yearsToSimulate p)%Z ->
   exists r : AggregateResult,
     runSimulation rng p = Ok r
     /\ length (probabilityData r) = Z.to_nat (yearsToSimulate p + 1)
     /\ length (medianData r) = Z.to_nat (yearsToSimulate p + 1)
     /\ (forall (i : nat) (d : ProbabilityEntry),
            nth_error (probabilityData r) i = Some d ->
            pd_age d = (currentAge p + Z.of_nat i)%Z)
     /\ (forall (i : nat) (m : MedianEntry),
            nth_error (medianData r) i = Some m ->
            md_age m = (currentAge p + Z.of_nat i)%Z)
     /\ Forall (fun run =>
                  runLength (Z.to_nat (yearsToSimulate p + 1)) run
                  /\ runNonneg run)
               (simulateAll rng p))
  /\ (1 - incomeTaxRate p / 100 <= 0 ->
      1 - capitalGainsInclusion p / 100 * (incomeTaxRate p / 100) <= 0 ->
      taxableDivisor p = 0.01 /\ preTaxDivisor p = 0.01
      /\ runSimulation rng p = runSimulation rng (withTaxes p 100 100))
  /\ simulateAll rng p
     = simulateAll rng
         (withBalances p (floorBalance (taxableBalance p))
                         (floorBalance (preTaxBalance p))
                         (floorBalance (rothBalance p))).
Proof.
  split; [|split].
  - intros Hy.
    destruct (runSimulation_returns rng p Hy) as (r & dl & Hr & Hpd & Hmd & _).
    destruct (medianRun_exists rng p) as (mrun & _ & _ & Emd).
    rewrite Emd in Hmd. injection Hmd as Hmd.
    exists r. split; [exact Hr|].
    split; [rewrite Hpd; apply forUpTo_length|].
    split; [rewrite <- Hmd; apply forUpTo_length|]. split; [|split].
    + intros i d Hd. rewrite Hpd in Hd. apply forUpTo_inv in Hd.
      destruct Hd as [_ ->]. reflexivity.
    + intros i m Hm. rewrite <- Hmd in Hm. apply forUpTo_inv in Hm.
      destruct Hm as [_ ->]. reflexivity.
    + apply simulateAll_Forall. intros calls. split.
      * apply simulatePath_length.
      * apply simulatePath_nonneg.
  - intros Hpre Htax.
    assert (Et : taxableDivisor p = 0.01) by (apply clampDivisor_clamped; exact Htax).
    assert (Ep : preTaxDivisor p = 0.01) by (apply clampDivisor_clamped; exact Hpre).
    split; [exact Et|]. split; [exact Ep|].
    apply runSimulation_sameEngine; [|reflexivity].
    unfold sameEngine. rewrite Et, Ep. repeat split; reflexivity.
  - apply simulateAll_sameEngine.
    + repeat split; reflexivity.
    + unfold floorAtZero, initialLedger, withBalances.
      cbn [bTaxable bPreTax bRoth taxableBalance preTaxBalance rothBalance].
      fold (floorBalance (taxableBalance p)) (floorBalance (preTaxBalance p))
        (floorBalance (rothBalance p)).
      fold (floorBalance (floorBalance (taxableBalance p)))
        (floorBalance (floorBalance (preTaxBalance p)))
        (floorBalance (floorBalance (rothBalance p))).
      rewrite !floorBalance_idem. reflexivity.
Qed.

Lemma runSimulation_unvalidated_witness :
  (paramsValid horizonZeroParams = false
   /\ exists r : AggregateResult,
        runSimulation zeroSource horizonZeroParams = Ok r
        /\ length (probabilityData r) = 1%nat)
  /\ (paramsValid overTaxedParams = false
      /\ paramsValid (withTaxes overTaxedParams 100 100) = true
      /\ runSimulation rampSource overTaxedParams
         = runSimulation rampSource (withTaxes overTaxedParams 100 100))
  /\ (paramsValid negativeBalanceParams = false
      /\ simulateAll rampSource negativeBalanceParams
         = simulateAll rampSource
             (withBalances negativeBalanceParams 0 40000 10000)).
Proof.
  split; [|split].
  - split; [reflexivity|].
    destruct (proj1 (runSimulation_unvalidated zeroSource horizonZeroParams))
      as (r & Hr & Hlen & _).
    + cbn. lia.
    + exists r. split; [exact Hr | exact Hlen].
  - split; [reflexivity|]. split; [reflexivity|].
    refine (proj2 (proj2
      (proj1 (proj2 (runSimulation_unvalidated rampSource overTaxedParams)) _ _)));
      vm_compute; discriminate.
  - split; [reflexivity|].
    exact (proj2 (proj2 (runSimulation_unvalidated rampSource negativeBalanceParams))).
Defined.
